(** * CampTracker: a shallow embedding of the camper record manager

    The development follows the Python sources of the repository:

    - [models.py]  : the [UserData] record and its validation;
    - [logic.py]   : the SQLite-backed record store ([add_camper],
                     [update_camper], [fetch_campers], [save_all_campers])
                     and the backup of the store file ([create_db_backup]);
    - [gui.py]     : the spell-check pass over the note field
                     ([check_spelling]) and the case matching of a
                     suggestion ([match_capitalization]).

    Modelling conventions.

    - A Python [str] is a [string]; characters are bytes, and only the
      ASCII letters are cased and only the ASCII white space is white
      space.
    - A Python [float] that is carried around (the rating) is a rational
      number [Q]: the store returns a REAL as it was given.
    - A Python exception is an error result ([Raise e]); an exception that
      leaves a store function before [conn.commit()] leaves the committed
      table as it was.
    - The SQLite table [campers] is the list of its rows in rowid order,
      together with the AUTOINCREMENT counter of [sqlite_sequence].
    - The file system is a map from the paths that exist to what they
      name, a regular file with its bytes or a directory; the calls
      thread it through, so an exception keeps what was made before
      it. *)

From Stdlib Require Import ZArith QArith Ascii String List Bool Lia.
From stdpp Require Import base list gmap strings.

Import ListNotations.
Local Open Scope string_scope.
Local Open Scope list_scope.

(** ** Python exceptions as error results *)

Inductive exn : Type :=
  | IntegrityError
  | ValueError
  | FileNotFoundError
  | IsADirectoryError
  | FileExistsError
  | SameFileError.

Inductive result (A : Type) : Type :=
  | Ok (a : A)
  | Raise (e : exn).

Arguments Ok {A} a.
Arguments Raise {A} e.

Definition bind {A B : Type} (r : result A) (k : A -> result B) : result B :=
  match r with
  | Ok a => k a
  | Raise e => Raise e
  end.

Notation "'do' x <- r ; k" := (bind r (fun x => k))
  (at level 10, x name, r at level 100, k at level 200).

(** ** The [str] methods the program uses *)

Module Py.

Definition code (c : ascii) : N := N_of_ascii c.

Definition char_isupper (c : ascii) : bool :=
  ((65 <=? code c) && (code c <=? 90))%N.

Definition char_islower (c : ascii) : bool :=
  ((97 <=? code c) && (code c <=? 122))%N.

(** [str.isspace] on the ASCII range: TAB, LF, VT, FF, CR, FS, GS, RS,
    US and the space. *)
Definition char_isspace (c : ascii) : bool :=
  (((9 <=? code c) && (code c <=? 13))
   || ((28 <=? code c) && (code c <=? 32)))%N.

Definition char_upper (c : ascii) : ascii :=
  if char_islower c then ascii_of_N (code c - 32) else c.

Definition char_lower (c : ascii) : ascii :=
  if char_isupper c then ascii_of_N (code c + 32) else c.

Fixpoint upper (s : string) : string :=
  match s with
  | EmptyString => EmptyString
  | String c s' => String (char_upper c) (upper s')
  end.

Fixpoint lower (s : string) : string :=
  match s with
  | EmptyString => EmptyString
  | String c s' => String (char_lower c) (lower s')
  end.

(** [str.capitalize]: first character upper-cased, the rest
    lower-cased. *)
Definition capitalize (s : string) : string :=
  match s with
  | EmptyString => EmptyString
  | String c s' => String (char_upper c) (lower s')
  end.

(** [str.isupper]: no lowercase character and at least one cased
    character.  [cased] records whether a cased character was seen. *)
Fixpoint isupper_from (cased : bool) (s : string) : bool :=
  match s with
  | EmptyString => cased
  | String c s' =>
      if char_islower c then false
      else isupper_from (cased || char_isupper c) s'
  end.

Definition isupper (s : string) : bool := isupper_from false s.

Fixpoint islower_from (cased : bool) (s : string) : bool :=
  match s with
  | EmptyString => cased
  | String c s' =>
      if char_isupper c then false
      else islower_from (cased || char_islower c) s'
  end.

Definition islower (s : string) : bool := islower_from false s.

(** [str.istitle]: an uppercase character may only follow an uncased
    one, a lowercase character only a cased one, and there is at least
    one cased character. *)
Fixpoint istitle_from (previous_is_cased cased : bool) (s : string) : bool :=
  match s with
  | EmptyString => cased
  | String c s' =>
      if char_isupper c then
        if previous_is_cased then false else istitle_from true true s'
      else if char_islower c then
        if previous_is_cased then istitle_from true true s' else false
      else istitle_from false cased s'
  end.

Definition istitle (s : string) : bool := istitle_from false false s.

(** [str.strip()] *)
Fixpoint lstrip (s : string) : string :=
  match s with
  | EmptyString => EmptyString
  | String c s' => if char_isspace c then lstrip s' else s
  end.

Fixpoint rstrip (s : string) : string :=
  match s with
  | EmptyString => EmptyString
  | String c s' =>
      match rstrip s' with
      | EmptyString => if char_isspace c then EmptyString else String c EmptyString
      | r => String c r
      end
  end.

Definition strip (s : string) : string := rstrip (lstrip s).

(** Truth value of a [str]: the empty string is false. *)
Definition truthy (s : string) : bool :=
  match s with
  | EmptyString => false
  | _ => true
  end.

End Py.

(** ** The spelling engine

    The program delegates the lookup to a third-party engine
    ([sym_spell.lookup]); none of it is in the repository. *)

Module Spell.

(** One candidate correction: the fields of the engine's suggestion
    items. *)
Record SuggestItem : Type := {
  term : string;
  distance : nat;
  count : Z
}.

(** Modelled from the spec: the edit distance of the glossary, the
    minimum number of single-character insertions, deletions or
    substitutions that turn [s] into [t] (the engine that computes it is
    not in the repository). *)
Fixpoint edit_distance (s t : string) {struct s} : nat :=
  match s with
  | EmptyString => String.length t
  | String a s' =>
      (fix against (t : string) : nat :=
         match t with
         | EmptyString => S (String.length s')
         | String b t' =>
             if Ascii.eqb a b then edit_distance s' t'
             else S (Nat.min (edit_distance s' (String b t'))
                       (Nat.min (against t') (edit_distance s' t')))
         end) t
  end.

(** The order of the candidates: ascending edit distance, then
    descending frequency. *)
Definition ranks_before (a b : SuggestItem) : bool :=
  (distance a <? distance b)%nat
  || ((distance a =? distance b)%nat && (count b <=? count a)%Z).

Fixpoint insert_ranked (a : SuggestItem) (l : list SuggestItem) : list SuggestItem :=
  match l with
  | [] => [a]
  | b :: l' => if ranks_before a b then a :: b :: l' else b :: insert_ranked a l'
  end.

Definition rank (l : list SuggestItem) : list SuggestItem :=
  foldr insert_ranked [] l.

Definition candidate (word : string) (entry : string * Z) : SuggestItem :=
  {| term := entry.1; distance := edit_distance word entry.1; count := entry.2 |}.

(** Modelled from the spec: [Lookup(word, max_distance)] over the loaded
    frequency dictionary (a map from a word to its count; the engine is
    not in the repository): the dictionary words within [max_distance]
    of [word], by ascending edit distance and then descending frequency;
    empty when there is none. *)
Definition Lookup (dictionary : gmap string Z) (word : string) (max_distance : nat)
  : list SuggestItem :=
  rank (List.filter (fun c => (distance c <=? max_distance)%nat)
          (List.map (candidate word) (map_to_list dictionary))).

End Spell.

(** ** gui.py: the spell-check pass and the case matching *)

Module Gui.

Import Spell.

(** The text widget of the note field: its content and the ranges that
    carry the tag [misspelled].  An index is the offset of a character
    in the content; a range is a pair (first offset, offset after the
    last). *)
Record Text : Type := {
  content : string;
  misspelled : list (nat * nat)
}.

(** [str.split()] with the offset of every word: maximal runs of
    characters that are not white space.  [cur] is the word being read
    (its offset and its characters, last first). *)
Fixpoint words_from (cur : option (nat * list ascii)) (pos : nat) (s : string)
  : list (nat * string) :=
  let emit :=
    match cur with
    | Some (p, w) => [(p, string_of_list_ascii (List.rev w))]
    | None => []
    end in
  match s with
  | EmptyString => emit
  | String c s' =>
      if Py.char_isspace c then emit ++ words_from None (S pos) s'
      else
        let cur' :=
          match cur with
          | Some (p, w) => (p, c :: w)
          | None => (pos, [c])
          end in
        words_from (Some cur') (S pos) s'
  end.

Definition word_spans (s : string) : list (nat * string) :=
  words_from None 0 s.

Definition split (s : string) : list string :=
  List.map snd (word_spans s).

(** [widget.search(pattern, start, stopindex="end")]: the offset of the
    first exact occurrence of [pattern] that begins at or after [start];
    [None] is the empty string Tk returns when there is none.  [text] is
    the content from offset [pos] on. *)
Fixpoint search_from (pattern text : string) (pos start : nat) : option nat :=
  if (start <=? pos)%nat && String.prefix pattern text then Some pos
  else
    match text with
    | EmptyString => None
    | String _ text' => search_from pattern text' (S pos) start
    end.

Definition search (w : Text) (pattern : string) (start : nat) : option nat :=
  search_from pattern (content w) 0 start.

Section CheckSpelling.

(** [self.sym_spell.lookup(_, Verbosity.CLOSEST, max_edit_distance=2)] *)
Variable lookup : string -> list SuggestItem.

(** The test of the loop body:
    [not suggestions or suggestions[0].term != word.lower()]. *)
Definition flagged (word : string) : bool :=
  match lookup (Py.lower word) with
  | [] => true
  | top :: _ => negb (String.eqb (term top) (Py.lower word))
  end.

(** The loop of [check_spelling] over the words, with the running
    [start] index and the widget. *)
Fixpoint check_words (words : list string) (start : nat) (w : Text) : Text :=
  match words with
  | [] => w
  | word :: rest =>
      if flagged word then
        match search w word start with
        | Some pos =>
            let end_ := pos + String.length word in
            check_words rest end_
              {| content := content w;
                 misspelled := misspelled w ++ [(pos, end_)] |}
        | None => check_words rest start w
        end
      else check_words rest start w
  end.

(** [BuildGUI.check_spelling(event)]: nothing happens without an event
    that carries a widget; otherwise the tag is removed everywhere and
    set again word by word. *)
Definition check_spelling (event : option Text) : option Text :=
  match event with
  | None => None
  | Some widget =>
      let cleared := {| content := content widget; misspelled := [] |} in
      Some (check_words (split (content widget)) 0 cleared)
  end.

End CheckSpelling.

(** [BuildGUI.match_capitalization(original, suggestion)] *)
Definition match_capitalization (original suggestion : string) : string :=
  if Py.isupper original then Py.upper suggestion
  else if Py.istitle original then Py.capitalize suggestion
  else if Py.islower original then Py.lower suggestion
  else suggestion.

(** A small dictionary for the examples. *)
Definition sample_dictionary : gmap string Z :=
  list_to_map [("the", 200%Z); ("there", 100%Z); ("camper", 50%Z)].

Definition sample_lookup (word : string) : list SuggestItem :=
  Lookup sample_dictionary word 2.

End Gui.

(** ** models.py: the camper as the form captures it *)

Module Models.

(** [VALID_PHONE_CHARS = set("0123456789-+ ()")] *)
Definition VALID_PHONE_CHARS : list ascii :=
  list_ascii_of_string "0123456789-+ ()".

(** The attributes of a [UserData] object. *)
Record UserData : Type := {
  name : string;
  surname : string;
  number : string;
  note : string;
  rating : Q;
  email : string;
  status : string
}.

(** [UserData.__init__]: every text but the number is stripped. *)
Definition UserData_init (name number surname note : string) (rating : Q)
    (email status : string) : UserData :=
  {| name := Py.strip name;
     surname := Py.strip surname;
     number := number;
     note := Py.strip note;
     rating := rating;
     email := Py.strip email;
     status := Py.strip status |}.

(** [UserData.is_valid_phone_input(number)] *)
Fixpoint is_valid_phone_input (number : string) : bool :=
  match number with
  | EmptyString => true
  | String char rest =>
      (if decide (char ∈ VALID_PHONE_CHARS) then true else false)
      && is_valid_phone_input rest
  end.

Definition Qlt_bool (a b : Q) : bool := negb (Qle_bool b a).

(** [UserData.is_valid()]: the verdict, and the error box that is shown
    (title and message) when it is negative. *)
Definition is_valid_box (self : UserData) : bool * option (string * string) :=
  if negb (Py.truthy (name self)) then
    (false, Some ("Missing Name", "Please enter a name."))
  else if negb (Py.truthy (surname self)) then
    (false, Some ("Missing Surname", "Please enter a surname."))
  else if negb (is_valid_phone_input (number self)) then
    (false, Some ("Invalid Input", "Number must contain digits and symbols only."))
  else if (21 <? String.length (number self))%nat then
    (false, Some ("Too Long", "Number must be 21 digits or fewer."))
  else if Qlt_bool (rating self) 0 || Qlt_bool 5 (rating self) then
    (false, Some ("Invalid Rating", "Rating must be between 0 and 5."))
  else (true, None).

Definition is_valid (self : UserData) : bool := (is_valid_box self).1.

End Models.

(** ** logic.py: the record store *)

Module Logic.

(** The seven columns an INSERT or an UPDATE binds, in the order of the
    statements. *)
Record columns : Type := {
  name : string;
  surname : string;
  email : string;
  number : string;
  note : string;
  rating : Q;
  status : string
}.

(** A row of [campers]: the key and the seven columns. *)
Record row : Type := {
  id : Z;
  cols : columns
}.

(** The table: its rows in rowid order and the counter that
    AUTOINCREMENT keeps in [sqlite_sequence]. *)
Record table : Type := {
  rows : list row;
  seq : Z
}.

(** The table [init_db] creates. *)
Definition init_db : table := {| rows := []; seq := 0 |}.

(** What is committed after a call: an exception leaves the function
    before [conn.commit()], so the table stays as it was. *)
Definition committed (before : table) (r : result table) : table :=
  match r with
  | Ok after => after
  | Raise _ => before
  end.

(** *** The SQL statements *)

(** [number TEXT UNIQUE]: does a row other than [self] hold [n]? *)
Definition number_taken (rs : list row) (self : option Z) (n : string) : bool :=
  existsb (fun r =>
             String.eqb (number (cols r)) n
             && match self with
                | Some i => negb (id r =? i)%Z
                | None => true
                end) rs.

Definition max_rowid (rs : list row) : Z :=
  foldr (fun r m => Z.max (id r) m) 0%Z rs.

(** The rowid AUTOINCREMENT hands out: one more than the largest rowid
    the table ever held. *)
Definition next_rowid (t : table) : Z :=
  (Z.max (seq t) (max_rowid (rows t)) + 1)%Z.

(** [INSERT INTO campers (...) VALUES (...)] *)
Definition sql_insert (t : table) (c : columns) : result table :=
  if number_taken (rows t) None (number c) then Raise IntegrityError
  else
    let i := next_rowid t in
    Ok {| rows := rows t ++ [{| id := i; cols := c |}]; seq := i |}.

(** [INSERT OR IGNORE INTO campers (...) VALUES (...)]: a row that
    breaks the constraint is skipped without an error; the rowid that
    was prepared for it is spent. *)
Definition sql_insert_or_ignore (t : table) (c : columns) : table :=
  let i := next_rowid t in
  if number_taken (rows t) None (number c)
  then {| rows := rows t; seq := i |}
  else {| rows := rows t ++ [{| id := i; cols := c |}]; seq := i |}.

(** [UPDATE campers SET ... WHERE id=?] *)
Definition sql_update (t : table) (i : Z) (c : columns) : result table :=
  if existsb (fun r => (id r =? i)%Z) (rows t) then
    if number_taken (rows t) (Some i) (number c) then Raise IntegrityError
    else
      Ok {| rows := List.map (fun r => if (id r =? i)%Z
                                       then {| id := id r; cols := c |}
                                       else r) (rows t);
            seq := seq t |}
  else Ok t.

(** SQLite's [LIKE]: [%] stands for any run of characters, [_] for any
    one character, and letters match without regard to case. *)
Fixpoint like (pattern text : list ascii) {struct pattern} : bool :=
  match pattern with
  | [] => match text with [] => true | _ => false end
  | p :: pattern' =>
      if Ascii.eqb p "%" then
        (fix any_run (text : list ascii) : bool :=
           like pattern' text
           || match text with
              | [] => false
              | _ :: text' => any_run text'
              end) text
      else
        match text with
        | [] => false
        | c :: text' =>
            (Ascii.eqb p "_" || Ascii.eqb (Py.char_lower p) (Py.char_lower c))
            && like pattern' text'
        end
  end.

Definition sql_like (pattern text : string) : bool :=
  like (list_ascii_of_string pattern) (list_ascii_of_string text).

(** The column a search names; the callers pass one of these four. *)
Definition column_of (column : string) : option (columns -> string) :=
  if String.eqb column "name" then Some name
  else if String.eqb column "surname" then Some surname
  else if String.eqb column "email" then Some email
  else if String.eqb column "number" then Some number
  else None.

(** *** The functions of logic.py *)

Definition columns_of_user (user : Models.UserData) : columns :=
  {| name := Models.name user;
     surname := Models.surname user;
     email := Models.email user;
     number := Models.number user;
     note := Models.note user;
     rating := Models.rating user;
     status := Models.status user |}.

(** [add_camper(user)] *)
Definition add_camper (t : table) (user : Models.UserData) : result table :=
  sql_insert t (columns_of_user user).

(** [update_camper(camper_id, user)] *)
Definition update_camper (t : table) (camper_id : Z) (user : Models.UserData)
  : result table :=
  sql_update t camper_id (columns_of_user user).

(** The entries of the form that [handle_submit] reads. *)
Record form : Type := {
  name_entry : string;
  surname_entry : string;
  email_entry : string;
  number_entry : string;
  note_entry : string;
  rating_var : Q;
  status_var : string
}.

(** [handle_submit(...)]: the camper is added only when it is valid. *)
Definition handle_submit (t : table) (f : form) : result table :=
  let user :=
    Models.UserData_init (name_entry f) (number_entry f) (surname_entry f)
      (note_entry f) (rating_var f) (email_entry f) (status_var f) in
  if Models.is_valid user then add_camper t user else Ok t.

(** [fetch_campers(search_term=None, column=None)]: the filter applies
    only when both arguments are given and non-empty.  A column outside
    the four the callers use is not modelled ([None]). *)
Definition fetch_campers (t : table) (search_term column : option string)
  : option (list row) :=
  match search_term, column with
  | Some term, Some col =>
      if Py.truthy term && Py.truthy col then
        match column_of col with
        | Some field =>
            Some (List.filter
                    (fun r => sql_like ("%" ++ term ++ "%") (field (cols r)))
                    (rows t))
        | None => None
        end
      else Some (rows t)
  | _, _ => Some (rows t)
  end.

(** [delete_camper(camper_id)] *)
Definition delete_camper (t : table) (camper_id : Z) : table :=
  {| rows := List.filter (fun r => negb (id r =? camper_id)%Z) (rows t);
     seq := seq t |}.

(** [delete_camper_by_number(number)] *)
Definition delete_camper_by_number (t : table) (n : string) : table :=
  {| rows := List.filter (fun r => negb (String.eqb (number (cols r)) n)) (rows t);
     seq := seq t |}.

(** A value found under the key ["rating"] of an item. *)
Inductive pynum : Type :=
  | PyInt (z : Z)
  | PyFloat (q : Q)
  | PyStr (s : string).

(** An item of the list [save_all_campers] receives: a dict, so every
    key may be absent. *)
Record item : Type := {
  item_id : option Z;
  item_name : option string;
  item_surname : option string;
  item_email : option string;
  item_number : option string;
  item_note : option string;
  item_rating : option pynum;
  item_status : option string
}.

(** The camper of the example: Ann Lee, and the table that holds only
    her. *)
Definition ann : Models.UserData :=
  Models.UserData_init "Ann" "555-1234" "Lee" "" (7 # 2) "" "yellow".

Definition ann_table : table := committed init_db (add_camper init_db ann).

(** The form that submits Ann Lee. *)
Definition ann_form : form :=
  {| name_entry := "Ann"; surname_entry := "Lee"; email_entry := "";
     number_entry := "555-1234"; note_entry := ""; rating_var := 7 # 2;
     status_var := "yellow" |}.

(** A camper no rule of [is_valid] accepts: no name, no surname, a
    number that is too long and is not made of phone characters, a
    rating above five. *)
Definition invalid_columns : columns :=
  {| name := ""; surname := ""; email := "nobody";
     number := "call 555-1234 after 9pm"; note := "";
     rating := inject_Z 9; status := "purple" |}.

Definition invalid_form : form :=
  {| name_entry := ""; surname_entry := ""; email_entry := "nobody";
     number_entry := "call 555-1234 after 9pm"; note_entry := "";
     rating_var := inject_Z 9; status_var := "purple" |}.

Section SaveAll.

(** Python's [float] on a [str], which is no part of the repository:
    [None] is the [ValueError] of a text that is not a number. *)
Variable float_of_str : string -> option Q.

(** [float(item.get("rating", 0))] *)
Definition float (v : option pynum) : result Q :=
  match v with
  | None => Ok (inject_Z 0)
  | Some (PyInt z) => Ok (inject_Z z)
  | Some (PyFloat q) => Ok q
  | Some (PyStr s) =>
      match float_of_str s with
      | Some q => Ok q
      | None => Raise ValueError
      end
  end.

(** The tuple both statements bind: [item.get(key, "")] for the texts
    and the rating as a float. *)
Definition bound (it : item) : result columns :=
  do r <- float (item_rating it);
  Ok {| name := default "" (item_name it);
        surname := default "" (item_surname it);
        email := default "" (item_email it);
        number := default "" (item_number it);
        note := default "" (item_note it);
        rating := r;
        status := default "" (item_status it) |}.

(** [if camper_id:] is false for a missing id and for zero. *)
Definition truthy_id (it : item) : option Z :=
  match item_id it with
  | Some i => if (i =? 0)%Z then None else Some i
  | None => None
  end.

(** The body of the loop of [save_all_campers]. *)
Definition save_item (t : table) (it : item) : result table :=
  match truthy_id it with
  | Some camper_id =>
      do c <- bound it;
      sql_update t camper_id c
  | None =>
      do c <- bound it;
      Ok (sql_insert_or_ignore t c)
  end.

(** [save_all_campers(items)], up to [conn.commit()]. *)
Fixpoint save_all_campers (t : table) (items : list item) : result table :=
  match items with
  | [] => Ok t
  | it :: rest =>
      do t' <- save_item t it;
      save_all_campers t' rest
  end.

(** [ReconcileAll]: the table that is committed after the call. *)
Definition ReconcileAll (t : table) (items : list item) : table :=
  committed t (save_all_campers t items).

(** The columns the last update of [items] for the id [i] binds, if
    there is one. *)
Fixpoint last_update (items : list item) (i : Z) : option columns :=
  match items with
  | [] => None
  | it :: rest =>
      match last_update rest i with
      | Some c => Some c
      | None =>
          match truthy_id it, bound it with
          | Some j, Ok c => if (i =? j)%Z then Some c else None
          | _, _ => None
          end
      end
  end.

(** A row after the updates of [items] went through. *)
Definition overwritten (items : list item) (r : row) : row :=
  match last_update items (id r) with
  | Some c => {| id := id r; cols := c |}
  | None => r
  end.

End SaveAll.

(** The ids AUTOINCREMENT hands out begin at one. *)
Definition ids_positive (t : table) : Prop :=
  forall r, In r (rows t) -> (0 < id r)%Z.

(** A float is given as a [str] of digits in none of the examples. *)
Definition no_float (s : string) : option Q := None.

(** The columns an item of the results grid binds. *)
Definition grid_columns (name surname number : string) (rating : Z) : columns :=
  {| name := name; surname := surname; email := ""; number := number;
     note := ""; rating := inject_Z rating; status := "" |}.

(** The invalid camper as an item, with or without an id. *)
Definition invalid_item (i : option Z) : item :=
  {| item_id := i; item_name := Some ""; item_surname := Some "";
     item_email := Some "nobody";
     item_number := Some "call 555-1234 after 9pm"; item_note := Some "";
     item_rating := Some (PyInt 9); item_status := Some "purple" |}.

(** An item as the results grid builds it. *)
Definition grid_item (i : option Z) (name surname number : string) (rating : Z)
  : item :=
  {| item_id := i; item_name := Some name; item_surname := Some surname;
     item_email := Some ""; item_number := Some number; item_note := Some "";
     item_rating := Some (PyInt rating); item_status := Some "" |}.

End Logic.

(** ** logic.py: the backup of the store file *)

Module Backup.

(** What a path names: a regular file with its bytes, or a directory. *)
Inductive node : Type :=
  | File (bytes : list Byte.byte)
  | Directory.

(** The file system: what every path that exists names.  Paths are
    compared as they are written, and the directory of the program
    exists, since the file of the module lies in it.  Links, and the
    failures of the operating system that do not depend on what exists
    (permissions, a full disk), are outside the model. *)
Abbreviation filesystem := (gmap string node).

(** A call that reads or writes the file system.  An exception leaves
    the file system as the call has made it up to there. *)
Definition io (A : Type) : Type := filesystem -> result A * filesystem.

Definition ret {A : Type} (a : A) : io A := fun fs => (Ok a, fs).

Definition raise {A : Type} (e : exn) : io A := fun fs => (Raise e, fs).

Definition and_then {A B : Type} (m : io A) (k : A -> io B) : io B :=
  fun fs =>
    match m fs with
    | (Ok a, fs') => k a fs'
    | (Raise e, fs') => (Raise e, fs')
    end.

Notation "'call' x <- m ; k" := (and_then m (fun x => k))
  (at level 10, x name, m at level 100, k at level 200).

(** [datetime.now()] *)
Record datetime : Type := {
  year : nat;
  month : nat;
  day : nat;
  hour : nat;
  minute : nat;
  second : nat
}.

(** A moment [datetime.now()] can return, in a year of four digits:
    a year below 1000 is not padded to four digits by [%Y] on every
    platform. *)
Definition calendar (now : datetime) : Prop :=
  1000 <= year now < 10 * 1000
  /\ 1 <= month now <= 12
  /\ 1 <= day now <= 31
  /\ hour now <= 23
  /\ minute now <= 59
  /\ second now <= 59.

Definition digit (n : nat) : ascii := ascii_of_nat (48 + n mod 10).

(** The last [width] decimal digits of [n], with leading zeros. *)
Fixpoint zero_padded (width n : nat) (acc : string) : string :=
  match width with
  | O => acc
  | S width' => zero_padded width' (n / 10) (String (digit n) acc)
  end.

(** [strftime("%Y%m%d_%H%M%S")], for the years of four digits. *)
Definition strftime (now : datetime) : string :=
  zero_padded 4 (year now) ""
  ++ zero_padded 2 (month now) ""
  ++ zero_padded 2 (day now) ""
  ++ "_"
  ++ zero_padded 2 (hour now) ""
  ++ zero_padded 2 (minute now) ""
  ++ zero_padded 2 (second now) "".

(** *** Paths, as [posixpath] reads them *)

Definition startswith_sep (b : string) : bool :=
  match b with
  | String c _ => Ascii.eqb c "/"
  | EmptyString => false
  end.

Fixpoint endswith_sep (path : string) : bool :=
  match path with
  | EmptyString => false
  | String c rest =>
      match rest with
      | EmptyString => Ascii.eqb c "/"
      | String _ _ => endswith_sep rest
      end
  end.

(** [os.path.join(path, b)]: an absolute [b] drops [path], and the
    slash is put in where [path] does not bring it. *)
Definition join (path b : string) : string :=
  if startswith_sep b then b
  else if negb (Py.truthy path) || endswith_sep path then path ++ b
  else path ++ "/" ++ b.

Fixpoint has_sep (p : string) : bool :=
  match p with
  | EmptyString => false
  | String c rest => Ascii.eqb c "/" || has_sep rest
  end.

(** [os.path.basename(p)]: what follows the last slash of [p]. *)
Fixpoint basename (p : string) : string :=
  match p with
  | EmptyString => ""
  | String c rest =>
      if has_sep rest then basename rest
      else if Ascii.eqb c "/" then rest
      else p
  end.

(** *** The calls on the file system *)

(** [os.path.exists(path)] *)
Definition exists_ (path : string) : io bool :=
  fun fs =>
    match fs !! path with
    | Some _ => (Ok true, fs)
    | None => (Ok false, fs)
    end.

(** [os.path.isdir(path)] *)
Definition isdir (path : string) : io bool :=
  fun fs =>
    match fs !! path with
    | Some Directory => (Ok true, fs)
    | _ => (Ok false, fs)
    end.

(** [os.makedirs(name, exist_ok=True)], in a directory that exists:
    the directory is made when nothing has the name, a directory of
    the name is left as it is, and a regular file of the name is in
    the way. *)
Definition makedirs (name : string) : io unit :=
  fun fs =>
    match fs !! name with
    | None => (Ok tt, <[name := Directory]> fs)
    | Some Directory => (Ok tt, fs)
    | Some (File _) => (Raise FileExistsError, fs)
    end.

(** [shutil.copyfile(src, dst)]: the same file is not copied onto
    itself, the source is opened for reading and then the target for
    writing.  The target lies in a directory that exists. *)
Definition copyfile (src dst : string) : io string :=
  fun fs =>
    match fs !! src with
    | None => (Raise FileNotFoundError, fs)
    | Some source =>
        if String.eqb src dst then (Raise SameFileError, fs)
        else
          match source, fs !! dst with
          | Directory, _ => (Raise IsADirectoryError, fs)
          | File _, Some Directory => (Raise IsADirectoryError, fs)
          | File bytes, _ => (Ok dst, <[dst := File bytes]> fs)
          end
    end.

(** [shutil.copy2(src, dst)]: a [dst] that is a directory stands for
    the file of the name of [src] in it.  The metadata [copystat]
    copies is no part of the model. *)
Definition copy2 (src dst : string) : io string :=
  call into_directory <- isdir dst;
  let dst := if into_directory then join dst (basename src) else dst in
  copyfile src dst.

Section Paths.

(** [os.path.dirname(__file__)]: the directory of the program. *)
Variable here : string.

Definition get_db_path : string := join here "campers.db".

(** [get_backup_dir()] *)
Definition get_backup_dir : io string :=
  let backup_dir := join here "backups" in
  call _ <- makedirs backup_dir;
  ret backup_dir.

(** [create_db_backup()], called at the moment [now]. *)
Definition create_db_backup (now : datetime) : io string :=
  let db_path := get_db_path in
  call found <- exists_ db_path;
  if negb found then raise FileNotFoundError
  else
    let timestamp := strftime now in
    let backup_name := ("campers_backup_" ++ timestamp ++ ".db")%string in
    call backup_dir <- get_backup_dir;
    let backup_path := join backup_dir backup_name in
    call _ <- copy2 db_path backup_path;
    ret backup_path.

End Paths.

(** A file system that holds the store file of a program in [/app]. *)
Definition sample_bytes : list Byte.byte := [Byte.x53; Byte.x51; Byte.x4c].

Definition sample_fs : filesystem :=
  <["/app/campers.db" := File sample_bytes]> {["/app" := Directory]}.

(** A file system before the store file exists. *)
Definition empty_fs : filesystem := {["/app" := Directory]}.

(** A file system where a regular file has the name of the backup
    directory. *)
Definition blocked_fs : filesystem :=
  <["/app/backups" := File []]> sample_fs.

Definition sample_now : datetime :=
  {| year := 2025; month := 3; day := 7; hour := 9; minute := 5; second := 42 |}.

(** The file system after a first backup at [sample_now]. *)
Definition backed_up_fs : filesystem :=
  (create_db_backup "/app" sample_now sample_fs).2.

End Backup.

(** ** The properties, as the specification words them *)

Module Stated.

Import Gui.

(** Case matching, read clause by clause: all-uppercase, title-case,
    all-lowercase, and anything else. *)
Definition case_matching (original suggestion : string) : Prop :=
  (Py.isupper original = true ->
     match_capitalization original suggestion = Py.upper suggestion)
  /\ (Py.istitle original = true ->
        match_capitalization original suggestion = Py.capitalize suggestion)
  /\ (Py.islower original = true ->
        match_capitalization original suggestion = Py.lower suggestion)
  /\ (Py.isupper original = false -> Py.istitle original = false ->
      Py.islower original = false ->
        match_capitalization original suggestion = suggestion).

(** The tag [misspelled] after the pass over [text]: a word is flagged
    when the range it occupies carries the tag. *)
Definition tagged (lookup : string -> list Spell.SuggestItem) (text : string)
  : list (nat * nat) :=
  match check_spelling lookup (Some {| content := text; misspelled := [] |}) with
  | Some w => misspelled w
  | None => []
  end.

(** The pass flags exactly the words that fail the lookup test. *)
Definition flags_exactly (lookup : string -> list Spell.SuggestItem) (text : string)
  : Prop :=
  forall (pos : nat) (word : string),
    In (pos, word) (word_spans text) ->
    (In (pos, pos + String.length word) (tagged lookup text)
     <-> flagged lookup word = true).

(** [term] occurs in [value], letter case ignored: the substring the
    filter of [Fetch] is specified by. *)
Fixpoint contains_ci (value term : string) : bool :=
  String.prefix (Py.lower term) (Py.lower value)
  || match value with
     | EmptyString => false
     | String _ value' => contains_ci value' term
     end.

(** A term without the two characters [LIKE] reads as wildcards. *)
Fixpoint no_wildcard (term : string) : bool :=
  match term with
  | EmptyString => true
  | String c term' =>
      negb (Ascii.eqb c "%" || Ascii.eqb c "_") && no_wildcard term'
  end.

(** A filter of [Fetch] that matches the columns [c]: no filter at all,
    or one of the four columns together with a term that occurs in it. *)
Definition filter_matches (search_term column : option string)
    (c : Logic.columns) : Prop :=
  match search_term, column with
  | Some term, Some col =>
      exists field, Logic.column_of col = Some field
                    /\ contains_ci (field c) term = true
  | _, _ => True
  end.

(** [Fetch] with the filter [(col, term)] returns exactly the rows whose
    value in that column contains the term. *)
Definition fetch_is_substring_filter (t : Logic.table) (col term : string) : Prop :=
  exists field, Logic.column_of col = Some field
    /\ Logic.fetch_campers t (Some term) (Some col)
       = Some (List.filter (fun r => contains_ci (field (Logic.cols r)) term)
                 (Logic.rows t)).

(** A batch of updates for [t]: every item carries the id of a row. *)
Definition update_only (t : Logic.table) (items : list Logic.item) : Prop :=
  forall it, In it items ->
    exists i, Logic.item_id it = Some i
              /\ exists r, In r (Logic.rows t) /\ Logic.id r = i.

(** An item without an id, read as the columns [c]. *)
Definition reads_as (float_of_str : string -> option Q)
    (it : Logic.item) (c : Logic.columns) : Prop :=
  Logic.item_id it = None /\ Logic.bound float_of_str it = Ok c.

Definition stored_numbers (t : Logic.table) : list string :=
  List.map (fun r => Logic.number (Logic.cols r)) (Logic.rows t).

(** Records with pairwise distinct numbers, none of them stored. *)
Definition fresh_distinct (t : Logic.table) (cs : list Logic.columns) : Prop :=
  List.NoDup (List.map Logic.number cs)
  /\ forall c, In c cs -> ~ In (Logic.number c) (stored_numbers t).

(** The table [t'] is [t] with exactly the records [cs] added, in their
    order, every one under an id of its own choice by the store. *)
Definition persists_exactly (t t' : Logic.table) (cs : list Logic.columns) : Prop :=
  exists new, Logic.rows t' = Logic.rows t ++ new /\ List.map Logic.cols new = cs.

(** The duplicate is skipped wherever it stands in the batch: before it
    come the valid records [before], after it the valid records
    [after], and its number is the number of a stored record or of any
    of these siblings. *)
Definition skips_the_duplicate (float_of_str : string -> option Q) : Prop :=
  forall (t : Logic.table) (before after : list Logic.item) (dup : Logic.item)
         (cb ca : list Logic.columns) (cd : Logic.columns),
    Forall2 (reads_as float_of_str) before cb ->
    Forall2 (reads_as float_of_str) after ca ->
    reads_as float_of_str dup cd ->
    fresh_distinct t (cb ++ ca) ->
    In (Logic.number cd) (stored_numbers t)
    \/ In (Logic.number cd) (List.map Logic.number (cb ++ ca)) ->
    exists t',
      Logic.save_all_campers float_of_str t (before ++ dup :: after) = Ok t'
      /\ persists_exactly t t' (cb ++ ca).

(** The value of a decimal digit. *)
Definition digit_value (c : ascii) : option nat :=
  let n := nat_of_ascii c in
  if (48 <=? n)%nat && (n <=? 57)%nat then Some (n - 48) else None.

(** The number a string of decimal digits writes, read after [acc]. *)
Fixpoint decimal (acc : nat) (s : string) : option nat :=
  match s with
  | EmptyString => Some acc
  | String c s' =>
      match digit_value c with
      | Some d => decimal (10 * acc + d) s'
      | None => None
      end
  end.

(** [s] writes [n] in [width] decimal digits. *)
Definition numeral (width : nat) (s : string) (n : nat) : Prop :=
  String.length s = width /\ decimal 0 s = Some n.

(** A timestamped path inside [directory]: the file
    [campers_backup_<YYYYMMDD_HHMMSS>.db] of the moment [now]. *)
Definition timestamped (directory path : string) (now : Backup.datetime) : Prop :=
  exists YYYY MM DD hh mm ss : string,
    path = Backup.join directory
             ("campers_backup_" ++ YYYY ++ MM ++ DD ++ "_" ++ hh ++ mm ++ ss
              ++ ".db")
    /\ numeral 4 YYYY (Backup.year now)
    /\ numeral 2 MM (Backup.month now)
    /\ numeral 2 DD (Backup.day now)
    /\ numeral 2 hh (Backup.hour now)
    /\ numeral 2 mm (Backup.minute now)
    /\ numeral 2 ss (Backup.second now).

(** No regular file of [fs'] is missing in [fs]. *)
Definition no_new_file (fs fs' : Backup.filesystem) : Prop :=
  forall path bytes,
    fs' !! path = Some (Backup.File bytes) ->
    exists old, fs !! path = Some (Backup.File old).

(** [Backup], called at the moment [now] on the file system [fs]: with
    the store file absent it fails with the not-found condition and
    creates no file; with the store file present it produces a new
    file, at a timestamped path inside the backup directory, with the
    bytes of the store file. *)
Definition backup (here : string) (now : Backup.datetime)
    (fs : Backup.filesystem) : Prop :=
  let db_path := Backup.get_db_path here in
  let outcome := Backup.create_db_backup here now fs in
  (fs !! db_path = None ->
     outcome.1 = Raise FileNotFoundError /\ no_new_file fs outcome.2)
  /\ (forall bytes,
        fs !! db_path = Some (Backup.File bytes) ->
        exists backup_path,
          timestamped (Backup.join here "backups") backup_path now
          /\ fs !! backup_path = None
          /\ outcome.2 !! backup_path = Some (Backup.File bytes)).

End Stated.

(** ** The store as a whole: what every row obeys *)

Module Store.

Import Logic.

Definition ids (t : table) : list Z := List.map id (rows t).

Definition numbers (t : table) : list string :=
  List.map (fun r => number (cols r)) (rows t).

(** The constraints of the schema, [id INTEGER PRIMARY KEY AUTOINCREMENT]
    and [number TEXT UNIQUE]: no id and no number occurs twice, and every
    id is one the counter of [sqlite_sequence] has handed out. *)
Record consistent (t : table) : Prop := {
  ids_distinct : List.NoDup (ids t);
  numbers_distinct : List.NoDup (numbers t);
  ids_handed_out : forall r, In r (rows t) -> (0 < id r <= seq t)%Z
}.

(** Numbers that grow from one to the next, all above [from]. *)
Fixpoint increasing (from : Z) (l : list Z) : Prop :=
  match l with
  | [] => True
  | i :: l' => (from < i)%Z /\ increasing i l'
  end.

(** The rows stand in the order of their ids, the oldest first. *)
Definition in_id_order (t : table) : Prop := increasing 0 (ids t).

(** The items of a batch that take the insert path of
    [save_all_campers]: those without an id, or with the id zero. *)
Definition without_id (items : list item) : list item :=
  List.filter (fun it => match truthy_id it with
                         | Some _ => false
                         | None => true
                         end) items.

(** The table of Ann Lee after Bob Ray is stored as well. *)
Definition two_campers : table :=
  ReconcileAll no_float ann_table [grid_item None "Bob" "Ray" "555-9999" 3].

(** An item for the row [i] with a float for its rating. *)
Definition rated_item (i : Z) (number : string) : item :=
  {| item_id := Some i; item_name := Some "Ann"; item_surname := Some "Lee";
     item_email := Some ""; item_number := Some number; item_note := Some "";
     item_rating := Some (PyFloat (9 # 2)); item_status := Some "" |}.

End Store.

(** ** models.py: the camper as a dict *)

Module Dict.

(** [UserData.to_dict()]: the seven attributes under their keys; there
    is no key ["id"]. *)
Definition to_dict (self : Models.UserData) : Logic.item :=
  {| Logic.item_id := None;
     Logic.item_name := Some (Models.name self);
     Logic.item_surname := Some (Models.surname self);
     Logic.item_email := Some (Models.email self);
     Logic.item_number := Some (Models.number self);
     Logic.item_note := Some (Models.note self);
     Logic.item_rating := Some (Logic.PyFloat (Models.rating self));
     Logic.item_status := Some (Models.status self) |}.

(** An item whose rating is a text that is no number. *)
Definition unrated_item (i : option Z) (number : string) : Logic.item :=
  {| Logic.item_id := i; Logic.item_name := Some "Cy";
     Logic.item_surname := Some "Poe"; Logic.item_email := Some "";
     Logic.item_number := Some number; Logic.item_note := Some "";
     Logic.item_rating := Some (Logic.PyStr "good");
     Logic.item_status := Some "" |}.

End Dict.

(** ** gui.py: the filter of the number entries *)

Module Entry.

(** [char in VALID_PHONE_CHARS] for a [str]: the set holds strings of
    one character, so a longer text and the empty text are no members. *)
Definition in_VALID_PHONE_CHARS (char : string) : bool :=
  match char with
  | String c EmptyString =>
      if decide (c ∈ Models.VALID_PHONE_CHARS) then true else false
  | _ => false
  end.

(** [BuildGUI.validate_phone_input(action, char)]: [action] is Tk's
    [%d] (["0"] for a deletion, ["1"] for an insertion) and [char] is
    Tk's [%S], the text that is inserted or deleted. *)
Definition validate_phone_input (action char : string) : bool :=
  if String.eqb action "0" then true
  else in_VALID_PHONE_CHARS char.

(** An edit of an entry with [validate="key"]: the text [text] is
    inserted before the offset [index], or the characters from [first]
    up to [last] are deleted. *)
Inductive edit : Type :=
  | Insert (index : nat) (text : string)
  | Delete (first last : nat).

Definition take (n : nat) (s : string) : string := String.substring 0 n s.

Definition drop (n : nat) (s : string) : string :=
  String.substring n (String.length s - n) s.

(** The content of the entry after an edit: Tk asks the
    [validatecommand] with the action and the text of the edit, and
    drops the edit when the answer is false. *)
Definition edited (content : string) (e : edit) : string :=
  match e with
  | Insert index text =>
      if validate_phone_input "1" text
      then take index content ++ text ++ drop index content
      else content
  | Delete first last =>
      if (first <? last)%nat
         && validate_phone_input "0" (take (last - first) (drop first content))
      then take first content ++ drop last content
      else content
  end.

End Entry.

(** ** gui.py: where the tags of the spell check lie *)

Module Tags.

(** The word [word] stands in [content] at the offset [pos]. *)
Definition occurs_at (content : string) (pos : nat) (word : string) : Prop :=
  exists before after,
    content = (before ++ word ++ after)%string /\ String.length before = pos.

(** The tag [tag] covers an occurrence of [word] in [content]. *)
Definition spells (content : string) (tag : nat * nat) (word : string) : Prop :=
  occurs_at content tag.1 word /\ tag.2 = tag.1 + String.length word.

(** Tags that follow one another from the offset [from] on, none
    reaching into the next. *)
Fixpoint laid_out (from : nat) (tags : list (nat * nat)) : Prop :=
  match tags with
  | [] => True
  | tag :: rest => from <= tag.1 /\ tag.1 <= tag.2 /\ laid_out tag.2 rest
  end.

(** Words that follow one another in [content] from the offset [from]
    on. *)
Fixpoint spans_in (content : string) (from : nat) (spans : list (nat * string))
  : Prop :=
  match spans with
  | [] => True
  | span :: rest =>
      from <= span.1
      /\ occurs_at content span.1 span.2
      /\ spans_in content (span.1 + String.length span.2) rest
  end.

(** The words of a text that the spell check flags, with their
    offsets. *)
Definition flagged_spans (lookup : string -> list Spell.SuggestItem)
    (content : string) : list (nat * string) :=
  List.filter (fun span => Gui.flagged lookup span.2) (Gui.word_spans content).

End Tags.

(** ** gui.py: the stars of the rating *)

Module Stars.

(** The three images a star label can show. *)
Inductive image : Type :=
  | star_empty
  | star_half
  | star_full.

(** [int(value)]: the value without its fraction, towards zero. *)
Definition int (value : Q) : Z := (Qnum value ÷ Z.pos (Qden value))%Z.

Definition floor (value : Q) : Z := (Qnum value / Z.pos (Qden value))%Z.

(** [(value % 1) >= 0.5]: Python's [%] takes the sign of the divisor,
    so [value % 1] is what [value] lies above its floor. *)
Definition has_half (value : Q) : bool :=
  Qle_bool (1 # 2) (value - inject_Z (floor value)).

(** [star_labels[i].configure(image=...)]; [None] is the IndexError of
    a list that has no label [i]. *)
Definition configure (star_labels : list image) (i : nat) (img : image)
  : option (list image) :=
  if (i <? length star_labels)%nat then Some (<[i := img]> star_labels)
  else None.

(** The image the loop chooses for the label [i]. *)
Definition image_of (value : Q) (i : nat) : image :=
  if (Z.of_nat i <? int value)%Z then star_full
  else if (Z.of_nat i =? int value)%Z && has_half value then star_half
  else star_empty.

Fixpoint configure_all (value : Q) (indices : list nat) (star_labels : list image)
  : option (list image) :=
  match indices with
  | [] => Some star_labels
  | i :: rest =>
      match configure star_labels i (image_of value i) with
      | Some labels => configure_all value rest labels
      | None => None
      end
  end.

(** [BuildGUI.update_star_display(star_labels, value)]: the images of
    the labels after the loop over [range(5)]; the loop of [set_rating]
    is the same. *)
Definition update_star_display (star_labels : list image) (value : Q)
  : option (list image) :=
  configure_all value (List.seq 0 5) star_labels.

(** The rating a row of stars reads as: one for a full star, a half for
    a half star. *)
Definition stars (img : image) : Q :=
  match img with
  | star_full => 1
  | star_half => 1 # 2
  | star_empty => 0
  end.

Definition shown (labels : list image) : Q :=
  foldr (fun img q => (stars img + q)%Q) 0%Q labels.

(** The values the stars are clicked to: [pos + 1.0] with the left
    button and [pos + 0.5] with the right one. *)
Definition left_click (pos : nat) : Q := inject_Z (Z.of_nat pos) + 1.

Definition right_click (pos : nat) : Q := inject_Z (Z.of_nat pos) + (1 # 2).

End Stars.

(** ** gui.py: the search tab *)

Module Search.

Import Logic.

(** The four entries of the search tab. *)
Record fields : Type := {
  search_name : string;
  search_surname : string;
  search_email : string;
  search_number : string
}.

(** [BuildGUI.perform_search()]: the items of the results tree after the
    call, in their order.  An item holds the eight values of a row, and
    is written as the row.  The items the tree held before are deleted
    first, so they play no part. *)
Definition perform_search (t : table) (f : fields) : list row :=
  let name := Py.strip (search_name f) in
  let surname := Py.strip (search_surname f) in
  let email := Py.strip (search_email f) in
  let number := Py.strip (search_number f) in
  let results :=
    if negb (Py.truthy name || Py.truthy surname
             || Py.truthy number || Py.truthy email)
    then fetch_campers t None None
    else if Py.truthy name then fetch_campers t (Some name) (Some "name")
    else if Py.truthy surname
    then fetch_campers t (Some surname) (Some "surname")
    else if Py.truthy email then fetch_campers t (Some email) (Some "email")
    else if Py.truthy number
    then fetch_campers t (Some number) (Some "number")
    else Some [] in
  default [] results.

(** [BuildGUI.delete_selected_camper()]: the table and the items of the
    tree after the call; [selected] is [self.tree.selection()]. *)
Definition delete_selected_camper (t : table) (tree selected : list row)
    (f : fields) : table * list row :=
  match selected with
  | [] => (t, tree)
  | item :: _ =>
      let number := number (cols item) in
      if Py.truthy number then
        let t' := delete_camper_by_number t number in
        (t', perform_search t' f)
      else (t, tree)
  end.

(** The search that names nothing but [name]. *)
Definition by_name (name : string) : fields :=
  {| search_name := name; search_surname := ""; search_email := "";
     search_number := "" |}.

(** A form with a name and a surname and no number. *)
Definition numberless_form : form :=
  {| name_entry := "Dee"; surname_entry := "Fox"; email_entry := "";
     number_entry := ""; note_entry := ""; rating_var := 3;
     status_var := "green" |}.

End Search.

(** ** logic.py: the store file between two backups *)

Module Moments.

Import Backup.

(** The store file is written anew between two backups. *)
Definition rewritten (here : string) (bytes : list Byte.byte) (fs : filesystem)
  : filesystem :=
  <[get_db_path here := File bytes]> fs.

Definition later_now : datetime :=
  {| year := 2025; month := 3; day := 7; hour := 9; minute := 5; second := 43 |}.

End Moments.

(** ** Texts of ASCII characters *)

Module Plain.

(** [str.isascii()]: every character of the text is one of the 128 of
    ASCII.  On such a text the methods of [Py] are the methods of
    [str], which case the letters beyond ASCII as well. *)
Fixpoint isascii (s : string) : bool :=
  match s with
  | EmptyString => true
  | String c s' => (Py.code c <? 128)%N && isascii s'
  end.

End Plain.

(** * Case matching of a suggestion *)

Section CaseMatching.

Import Gui.

(** A string that [islower] accepts is neither title-case nor
    all-uppercase: its first cased character is a lowercase one. *)
Lemma islower_from_excl (s : string) :
  forall cased, Py.islower_from cased s = true ->
    cased = true
    \/ ((forall k, Py.istitle_from false k s = false)
        /\ (forall b, Py.isupper_from b s = false)).
Proof.
  induction s as [|a s IH]; intros cased H; simpl in H.
  - now left.
  - destruct (Py.char_isupper a) eqn:Hup; [discriminate|].
    destruct (Py.char_islower a) eqn:Hlo.
    + right. split; intros; simpl; rewrite ?Hup, Hlo; reflexivity.
    + rewrite orb_false_r in H.
      destruct (IH _ H) as [->|[Ht Hu]]; [now left|right].
      split; intros; simpl; rewrite ?Hup, Hlo; auto.
Qed.

Lemma islower_not_istitle (s : string) :
  Py.islower s = true -> Py.istitle s = false.
Proof.
  intros H. destruct (islower_from_excl s false H) as [?|[Ht _]];
    [discriminate|apply Ht].
Qed.

Lemma islower_not_isupper (s : string) :
  Py.islower s = true -> Py.isupper s = false.
Proof.
  intros H. destruct (islower_from_excl s false H) as [?|[_ Hu]];
    [discriminate|apply Hu].
Qed.

(** C3, as stated, fails: the one-letter word "A" is title-case and
    all-uppercase at once, and the all-uppercase branch is the one that
    is taken. *)
Lemma case_matching_title_overlap : ~ Stated.case_matching "A" "an".
Proof.
  intros (_ & Htitle & _).
  specialize (Htitle eq_refl). vm_compute in Htitle. discriminate.
Qed.

(** C3 (amended): [match_capitalization] returns the suggestion
    uppercased when the original is all-uppercase; capitalized when the
    original is title-case and not all-uppercase; lowercased when the
    original is all-lowercase; and unchanged in every other case. *)
Theorem match_capitalization_cases (original suggestion : string) :
  (Py.isupper original = true ->
     match_capitalization original suggestion = Py.upper suggestion)
  /\ (Py.istitle original = true -> Py.isupper original = false ->
        match_capitalization original suggestion = Py.capitalize suggestion)
  /\ (Py.islower original = true ->
        match_capitalization original suggestion = Py.lower suggestion)
  /\ (Py.isupper original = false -> Py.istitle original = false ->
      Py.islower original = false ->
        match_capitalization original suggestion = suggestion).
Proof.
  unfold match_capitalization. repeat split.
  - intros ->. reflexivity.
  - intros -> ->. reflexivity.
  - intros H. rewrite (islower_not_isupper _ H), (islower_not_istitle _ H), H.
    reflexivity.
  - intros -> -> ->. reflexivity.
Qed.

Lemma match_capitalization_cases_witness :
  match_capitalization "TEH" "the" = "THE"
  /\ match_capitalization "Teh" "the" = "The"
  /\ match_capitalization "teh" "The" = "the"
  /\ match_capitalization "tEh" "The" = "The".
Proof.
  destruct (match_capitalization_cases "TEH" "the") as (H1 & _).
  destruct (match_capitalization_cases "Teh" "the") as (_ & H2 & _).
  destruct (match_capitalization_cases "teh" "The") as (_ & _ & H3 & _).
  destruct (match_capitalization_cases "tEh" "The") as (_ & _ & _ & H4).
  split; [apply H1; reflexivity|].
  split; [apply H2; reflexivity|].
  split; [apply H3; reflexivity|].
  apply H4; reflexivity.
Defined.

End CaseMatching.

(** * The spell-check pass *)

Section SpellCheck.

Import Gui.

(** C1 fails on the text "there ther" with a dictionary that knows
    "there" and "the": the word "ther" fails the lookup test, but the
    search for it starts at the beginning of the text and finds it inside
    "there", so the tag lands on the first four characters of a word that
    passes the test and the word that fails it carries no tag. *)
Theorem check_spelling_tags_wrong_word :
  word_spans "there ther" = [(0, "there"); (6, "ther")]
  /\ flagged sample_lookup "there" = false
  /\ flagged sample_lookup "ther" = true
  /\ check_spelling sample_lookup
       (Some {| content := "there ther"; misspelled := [] |})
     = Some {| content := "there ther"; misspelled := [(0, 4)] |}
  /\ ~ Stated.flags_exactly sample_lookup "there ther".
Proof.
  assert (Hrun : check_spelling sample_lookup
                   (Some {| content := "there ther"; misspelled := [] |})
                 = Some {| content := "there ther"; misspelled := [(0, 4)] |})
    by (vm_compute; reflexivity).
  do 3 (split; [vm_compute; reflexivity|]).
  split; [exact Hrun|].
  intros Hclaim.
  destruct (Hclaim 6 "ther") as [_ Hflag].
  - vm_compute. right. left. reflexivity.
  - unfold Stated.tagged in Hflag. rewrite Hrun in Hflag. simpl in Hflag.
    destruct Hflag as [Heq|[]]; [vm_compute; reflexivity|discriminate].
Qed.

End SpellCheck.

(** * The lookup of a dictionary word *)

Section DictionaryLookup.

Import Spell.

Lemma edit_distance_same (s : string) : edit_distance s s = 0.
Proof.
  induction s as [|a s IH]; simpl; [reflexivity|].
  now rewrite Ascii.eqb_refl.
Qed.

Lemma edit_distance_zero (s : string) :
  forall t, edit_distance s t = 0 -> s = t.
Proof.
  induction s as [|a s IH]; intros [|b t] H; simpl in H;
    try reflexivity; try discriminate.
  destruct (Ascii.eqb a b) eqn:Hab; [|discriminate].
  apply Ascii.eqb_eq in Hab. subst b. f_equal. now apply IH.
Qed.

Lemma insert_ranked_In (x a : SuggestItem) (l : list SuggestItem) :
  In x (insert_ranked a l) <-> x = a \/ In x l.
Proof.
  induction l as [|b l IH]; simpl.
  - intuition.
  - destruct (ranks_before a b); simpl; [intuition|].
    rewrite IH. intuition.
Qed.

Lemma rank_In (x : SuggestItem) (l : list SuggestItem) :
  In x (rank l) <-> In x l.
Proof.
  induction l as [|a l IH]; simpl; [tauto|].
  unfold rank in *. simpl. rewrite insert_ranked_In, IH. intuition.
Qed.

(** The first candidate of a ranked list is at the least distance. *)
Lemma rank_head_least (l : list SuggestItem) :
  forall h r, rank l = h :: r ->
    forall x, In x l -> distance h <= distance x.
Proof.
  induction l as [|a l IH]; intros h r Hrank x Hx; [destruct Hx|].
  change (insert_ranked a (rank l) = h :: r) in Hrank.
  destruct (rank l) as [|h' r'] eqn:Hl.
  - simpl in Hrank. injection Hrank as <- _.
    destruct Hx as [<-|Hx]; [lia|].
    apply rank_In in Hx. rewrite Hl in Hx. destruct Hx.
  - specialize (IH h' r' eq_refl).
    simpl in Hrank. unfold ranks_before in Hrank.
    destruct (distance a <? distance h')%nat eqn:Hlt; simpl in Hrank.
    + injection Hrank as <- _. apply Nat.ltb_lt in Hlt.
      destruct Hx as [<-|Hx]; [lia|]. specialize (IH x Hx). lia.
    + apply Nat.ltb_ge in Hlt.
      destruct ((distance a =? distance h')%nat && (count h' <=? count a)%Z) eqn:Heq.
      * injection Hrank as <- _.
        apply andb_true_iff in Heq as [Heq _]. apply Nat.eqb_eq in Heq.
        destruct Hx as [<-|Hx]; [lia|]. specialize (IH x Hx). lia.
      * injection Hrank as <- _.
        destruct Hx as [<-|Hx]; [lia|]. now apply IH.
Qed.

(** C2: for every word [w] of the loaded dictionary, [Lookup(w, 2)] is
    not empty and its first candidate is [w] itself, at edit distance
    zero. *)
Theorem Lookup_dictionary_word (dictionary : gmap string Z) (w : string) (c : Z) :
  dictionary !! w = Some c ->
  exists rest,
    Lookup dictionary w 2
    = {| term := w; distance := 0; count := c |} :: rest.
Proof.
  intros Hw. unfold Lookup.
  set (cands := List.filter _ _).
  assert (Hin : In {| term := w; distance := 0; count := c |} cands).
  { apply filter_In. split; [|reflexivity].
    apply in_map_iff. exists (w, c). split.
    - unfold candidate. simpl. now rewrite edit_distance_same.
    - apply list_elem_of_In, elem_of_map_to_list, Hw. }
  destruct (rank cands) as [|h r] eqn:Hrank.
  - apply rank_In in Hin. rewrite Hrank in Hin. destruct Hin.
  - exists r. f_equal.
    pose proof (rank_head_least cands h r Hrank _ Hin) as Hle. simpl in Hle.
    assert (Hh : In h cands) by (apply rank_In; rewrite Hrank; now left).
    apply filter_In in Hh as [Hh _].
    apply in_map_iff in Hh as ([t c'] & <- & Ht).
    unfold candidate in *. simpl in *.
    assert (Hd : edit_distance w t = 0) by lia.
    apply edit_distance_zero in Hd. subst t.
    apply list_elem_of_In, elem_of_map_to_list in Ht.
    rewrite Hw in Ht. injection Ht as <-.
    now rewrite edit_distance_same.
Qed.

Lemma Lookup_dictionary_word_witness :
  exists rest,
    Lookup Gui.sample_dictionary "camper" 2
    = {| term := "camper"; distance := 0; count := 50 |} :: rest.
Proof.
  apply (Lookup_dictionary_word Gui.sample_dictionary "camper" 50).
  vm_compute. reflexivity.
Defined.

End DictionaryLookup.

(** * The record store: insert and fetch *)

Section InsertFetch.

Import Logic.

Local Abbreviation chars := list_ascii_of_string.

Lemma chars_app (s1 s2 : string) :
  chars (s1 ++ s2) = chars s1 ++ chars s2.
Proof.
  induction s1 as [|a s1 IH]; [reflexivity|].
  change (a :: chars (s1 ++ s2) = a :: (chars s1 ++ chars s2)).
  now rewrite IH.
Qed.

Lemma number_taken_In (rs : list row) (n : string) :
  number_taken rs None n = true
  <-> exists r, In r rs /\ number (cols r) = n.
Proof.
  unfold number_taken. rewrite existsb_exists.
  split; intros (r & Hr & H); exists r; split; auto.
  - apply andb_true_iff in H as [H _]. now apply String.eqb_eq.
  - rewrite andb_true_r. now apply String.eqb_eq.
Qed.

(** A pattern that begins with [%] may skip the first character. *)
Lemma like_percent_skip (p text : list ascii) (c : ascii) :
  like ("%"%char :: p) text = true -> like ("%"%char :: p) (c :: text) = true.
Proof.
  intros H. cbn [like]. cbn [like] in H.
  replace (Ascii.eqb "%" "%") with true in * by reflexivity.
  rewrite H. apply orb_true_r.
Qed.

Lemma like_percent_here (p text : list ascii) :
  like p text = true -> like ("%"%char :: p) text = true.
Proof.
  intros H. cbn [like].
  replace (Ascii.eqb "%" "%") with true by reflexivity.
  destruct text; now rewrite H.
Qed.

Lemma like_percent_all (text : list ascii) : like ["%"%char] text = true.
Proof.
  induction text as [|c text IH].
  - reflexivity.
  - now apply like_percent_skip.
Qed.

(** A term that is a prefix of the text, letter case ignored, matches
    as the pattern [term%], whatever characters the term is made of. *)
Lemma like_prefix (term : string) :
  forall value : string,
    String.prefix (Py.lower term) (Py.lower value) = true ->
    like (chars term ++ ["%"%char]) (chars value) = true.
Proof.
  induction term as [|a term IH]; intros value H.
  - apply like_percent_all.
  - destruct value as [|b value]; [discriminate|].
    simpl in H.
    destruct (ascii_dec (Py.char_lower a) (Py.char_lower b)) as [Hab|];
      [|discriminate].
    specialize (IH _ H).
    change (like (a :: (chars term ++ ["%"%char])) (b :: chars value) = true).
    cbn [like]. destruct (Ascii.eqb a "%") eqn:Hpc.
    + rewrite orb_true_iff. right.
      destruct (chars value); now rewrite IH.
    + rewrite IH, Hab, Ascii.eqb_refl. now rewrite orb_true_r.
Qed.

(** A term that occurs in the value matches the pattern the filter
    builds. *)
Lemma contains_ci_like (term : string) :
  forall value : string,
    Stated.contains_ci value term = true ->
    sql_like ("%" ++ term ++ "%") value = true.
Proof.
  unfold sql_like. rewrite !chars_app.
  change (chars "%") with ["%"%char]. cbn [app].
  induction value as [|b value IH]; intros H; simpl in H.
  - rewrite orb_false_r in H.
    apply like_percent_here. now apply (like_prefix term "").
  - apply orb_true_iff in H as [H|H].
    + apply like_percent_here. now apply (like_prefix term (String b value)).
    + change (chars (String b value)) with (b :: chars value).
      apply like_percent_skip. now apply IH.
Qed.

Lemma add_camper_fresh (t : table) (user : Models.UserData) :
  number_taken (rows t) None (Models.number user) = false ->
  add_camper t user
  = Ok {| rows := rows t ++ [{| id := next_rowid t; cols := columns_of_user user |}];
          seq := next_rowid t |}.
Proof.
  intros H. unfold add_camper, sql_insert. simpl. now rewrite H.
Qed.

(** C6: for every record whose number collides with no stored record,
    [Insert] followed by [Fetch] with a filter that matches the record
    returns a row equal to the record in name, surname, email, number,
    note, rating and status; its id is the one the store assigned. *)
Theorem insert_then_fetch (t : table) (user : Models.UserData)
    (search_term column : option string) :
  (forall r, In r (rows t) -> number (cols r) <> Models.number user) ->
  Stated.filter_matches search_term column (columns_of_user user) ->
  exists t' found r,
    add_camper t user = Ok t'
    /\ fetch_campers t' search_term column = Some found
    /\ In r found
    /\ id r = next_rowid t
    /\ name (cols r) = Models.name user
    /\ surname (cols r) = Models.surname user
    /\ email (cols r) = Models.email user
    /\ number (cols r) = Models.number user
    /\ note (cols r) = Models.note user
    /\ rating (cols r) = Models.rating user
    /\ status (cols r) = Models.status user.
Proof.
  intros Hfresh Hmatch.
  assert (Hnt : number_taken (rows t) None (Models.number user) = false).
  { destruct (number_taken _ _ _) eqn:E; [|reflexivity].
    apply number_taken_In in E as (r & Hr & E). now destruct (Hfresh r Hr). }
  set (r := {| id := next_rowid t; cols := columns_of_user user |}).
  set (t' := {| rows := rows t ++ [r]; seq := next_rowid t |}).
  assert (Hall : In r (rows t')) by (apply in_or_app; right; now left).
  assert (Hfound : exists found,
             fetch_campers t' search_term column = Some found /\ In r found).
  { unfold fetch_campers.
    destruct search_term as [term|]; [|eauto].
    destruct column as [col|]; [|eauto].
    destruct (Py.truthy term && Py.truthy col); [|eauto].
    destruct Hmatch as (field & -> & Hc).
    eexists. split; [reflexivity|].
    apply filter_In. split; [exact Hall|].
    now apply contains_ci_like. }
  destruct Hfound as (found & Hfetch & Hin).
  exists t', found, r.
  split; [now apply add_camper_fresh|].
  repeat (split; [assumption || reflexivity|]). reflexivity.
Qed.

Lemma insert_then_fetch_witness :
  exists t' found r,
    add_camper init_db ann = Ok t'
    /\ fetch_campers t' (Some "an") (Some "name") = Some found
    /\ In r found
    /\ id r = next_rowid init_db
    /\ name (cols r) = Models.name ann
    /\ surname (cols r) = Models.surname ann
    /\ email (cols r) = Models.email ann
    /\ number (cols r) = Models.number ann
    /\ note (cols r) = Models.note ann
    /\ rating (cols r) = Models.rating ann
    /\ status (cols r) = Models.status ann.
Proof.
  apply (insert_then_fetch init_db ann (Some "an") (Some "name")).
  - intros r [].
  - exists name. split; reflexivity.
Defined.

(** C8: for every record whose number is the number of a stored record,
    [Insert] fails with the constraint violation as an error result, from
    [add_camper] and from the submission of a valid form alike, and the
    committed table is unchanged. *)
Theorem add_camper_collision (t : table) :
  (forall user : Models.UserData,
     (exists r, In r (rows t) /\ number (cols r) = Models.number user) ->
     add_camper t user = Raise IntegrityError
     /\ committed t (add_camper t user) = t)
  /\ (forall f : form,
        let user :=
          Models.UserData_init (name_entry f) (number_entry f) (surname_entry f)
            (note_entry f) (rating_var f) (email_entry f) (status_var f) in
        (exists r, In r (rows t) /\ number (cols r) = Models.number user) ->
        Models.is_valid user = true ->
        handle_submit t f = Raise IntegrityError
        /\ committed t (handle_submit t f) = t).
Proof.
  assert (Hadd : forall user : Models.UserData,
             (exists r, In r (rows t) /\ number (cols r) = Models.number user) ->
             add_camper t user = Raise IntegrityError).
  { intros user Hdup. apply number_taken_In in Hdup.
    unfold add_camper, sql_insert. simpl. now rewrite Hdup. }
  split.
  - intros user Hdup. rewrite (Hadd user Hdup). split; reflexivity.
  - intros f user Hdup Hvalid. unfold handle_submit. fold user.
    rewrite Hvalid, (Hadd user Hdup). split; reflexivity.
Qed.

Lemma add_camper_collision_witness :
  add_camper ann_table ann = Raise IntegrityError
  /\ committed ann_table (add_camper ann_table ann) = ann_table
  /\ handle_submit ann_table ann_form = Raise IntegrityError
  /\ committed ann_table (handle_submit ann_table ann_form) = ann_table.
Proof.
  destruct (add_camper_collision ann_table) as [Hadd Hsubmit].
  assert (Hdup : exists r, In r (rows ann_table)
                           /\ number (cols r) = Models.number ann).
  { eexists. split; [left; reflexivity|reflexivity]. }
  destruct (Hadd ann Hdup) as [H1 H2].
  destruct (Hsubmit ann_form Hdup) as [H3 H4]; [reflexivity|].
  split; [exact H1|]. split; [exact H2|]. split; [exact H3|exact H4].
Defined.

End InsertFetch.

(** * The filter of a search *)

Section SearchFilter.

Import Logic.

Local Abbreviation chars := list_ascii_of_string.

(** Without wildcards, the pattern [term%] matches exactly the values
    that begin with the term, letter case ignored. *)
Lemma like_plain_prefix (term : string) :
  Stated.no_wildcard term = true ->
  forall value : string,
    like (chars term ++ ["%"%char]) (chars value)
    = String.prefix (Py.lower term) (Py.lower value).
Proof.
  induction term as [|a term IH]; intros Hplain value.
  - rewrite like_percent_all. now destruct value.
  - simpl in Hplain. apply andb_true_iff in Hplain as [Ha Hplain].
    apply negb_true_iff, orb_false_iff in Ha as [Hpc Hus].
    specialize (IH Hplain).
    destruct value as [|b value]; simpl.
    + now rewrite Hpc.
    + rewrite Hpc, Hus, IH. simpl.
      destruct (ascii_dec (Py.char_lower a) (Py.char_lower b)) as [->|Hne].
      * now rewrite Ascii.eqb_refl.
      * apply Ascii.eqb_neq in Hne. now rewrite Hne.
Qed.

(** For a term without wildcards the filter is the substring test. *)
Lemma like_plain_contains (term : string) :
  Stated.no_wildcard term = true ->
  forall value : string,
    sql_like ("%" ++ term ++ "%") value = Stated.contains_ci value term.
Proof.
  intros Hplain. unfold sql_like. rewrite !chars_app.
  change (chars "%") with ["%"%char]. cbn [app].
  assert (Hstep : forall p text,
             like ("%"%char :: p) text
             = like p text
               || match text with
                  | [] => false
                  | _ :: text' => like ("%"%char :: p) text'
                  end).
  { intros p [|c text]; reflexivity. }
  induction value as [|b value IH].
  - rewrite Hstep, (like_plain_prefix term Hplain ""). reflexivity.
  - change (chars (String b value)) with (b :: chars value).
    rewrite Hstep, IH.
    change (b :: chars value) with (chars (String b value)).
    rewrite (like_plain_prefix term Hplain (String b value)). reflexivity.
Qed.

(** [Fetch] without a filter returns every row. *)
Lemma fetch_campers_all (t : table) :
  fetch_campers t None None = Some (rows t).
Proof. reflexivity. Qed.

(** For a term without [%] and [_], [Fetch] returns exactly the rows
    whose value in the column contains the term, letter case ignored. *)
Lemma fetch_campers_plain_term (t : table) (col term : string)
    (field : columns -> string) :
  column_of col = Some field ->
  Py.truthy term = true ->
  Stated.no_wildcard term = true ->
  fetch_campers t (Some term) (Some col)
  = Some (List.filter (fun r => Stated.contains_ci (field (cols r)) term)
            (rows t)).
Proof.
  intros Hcol Hterm Hplain. unfold fetch_campers.
  assert (Htruthy : Py.truthy col = true).
  { destruct col; [discriminate Hcol|reflexivity]. }
  rewrite Hterm, Htruthy, Hcol. simpl. f_equal.
  apply List.filter_ext. intros r. now apply like_plain_contains.
Qed.

(** The example of the specification: Ann is found under the term "an"
    in the column [name]. *)
Lemma fetch_campers_ann :
  fetch_campers ann_table (Some "an") (Some "name")
  = Some [{| id := 1; cols := columns_of_user ann |}].
Proof. vm_compute. reflexivity. Qed.

(** C7 fails for a term that holds a wildcard of [LIKE]: under the term
    "_" in the column [name] the search returns Ann, whose name does not
    contain that character; the term is not escaped in the pattern. *)
Theorem fetch_campers_wildcard_term :
  rows ann_table = [{| id := 1; cols := columns_of_user ann |}]
  /\ name (columns_of_user ann) = "Ann"
  /\ Stated.contains_ci "Ann" "_" = false
  /\ fetch_campers ann_table (Some "_") (Some "name") = Some (rows ann_table)
  /\ ~ Stated.fetch_is_substring_filter ann_table "name" "_".
Proof.
  do 4 (split; [vm_compute; reflexivity|]).
  intros (field & Hcol & Hfetch).
  injection Hcol as <-. vm_compute in Hfetch. discriminate.
Qed.

End SearchFilter.

(** * Reconciliation: batches of updates *)

Section UpdateBatches.

Import Logic.

Variable float_of_str : string -> option Q.

Local Abbreviation save_item := (Logic.save_item float_of_str).
Local Abbreviation save_all_campers := (Logic.save_all_campers float_of_str).
Local Abbreviation ReconcileAll := (Logic.ReconcileAll float_of_str).
Local Abbreviation bound := (Logic.bound float_of_str).
Local Abbreviation last_update := (Logic.last_update float_of_str).
Local Abbreviation overwritten := (Logic.overwritten float_of_str).

(** An update that goes through rewrites the rows of its id and nothing
    else. *)
Lemma sql_update_rows (t t' : table) (i : Z) (c : columns) :
  sql_update t i c = Ok t' ->
  rows t' = List.map (fun r => if (id r =? i)%Z
                               then {| id := id r; cols := c |} else r) (rows t)
  /\ seq t' = seq t.
Proof.
  unfold sql_update. intros H.
  destruct (existsb _ (rows t)) eqn:Hex.
  - destruct (number_taken _ _ _); [discriminate|].
    injection H as <-. split; reflexivity.
  - injection H as <-. split; [|reflexivity].
    rewrite <- (List.map_id (rows t)) at 1.
    apply List.map_ext_in. intros r Hr.
    destruct (id r =? i)%Z eqn:E; [|reflexivity].
    assert (existsb (fun r => (id r =? i)%Z) (rows t) = true)
      by (apply existsb_exists; eauto).
    congruence.
Qed.

Lemma overwritten_id (items : list item) (r : row) :
  id (overwritten items r) = id r.
Proof. unfold Logic.overwritten. now destruct (last_update items (id r)). Qed.

Lemma overwritten_twice (items : list item) (r : row) :
  overwritten items (overwritten items r) = overwritten items r.
Proof.
  unfold Logic.overwritten at 1. rewrite overwritten_id.
  unfold Logic.overwritten.
  destruct (last_update items (id r)); reflexivity.
Qed.

(** A batch of updates that goes through leaves every row with the
    columns of the last update for its id. *)
Lemma save_all_updates (items : list item) :
  (forall it, In it items -> truthy_id it <> None) ->
  forall t t', save_all_campers t items = Ok t' ->
    rows t' = List.map (overwritten items) (rows t) /\ seq t' = seq t.
Proof.
  induction items as [|it rest IH]; intros Hids t t' Hrun.
  - injection Hrun as <-. split; [|reflexivity].
    symmetry. apply List.map_id.
  - cbn [Logic.save_all_campers] in Hrun.
    destruct (save_item t it) as [t1|] eqn:Hit; [|discriminate].
    cbn [bind] in Hrun.
    destruct (IH (fun x Hx => Hids x (or_intror Hx)) t1 t' Hrun) as [Hrows Hseq].
    unfold Logic.save_item in Hit.
    destruct (truthy_id it) as [i|] eqn:Hid;
      [|now destruct (Hids it (or_introl eq_refl))].
    destruct (bound it) as [c|] eqn:Hc; [|discriminate].
    cbn [bind] in Hit.
    destruct (sql_update_rows _ _ _ _ Hit) as [Hrows1 Hseq1].
    split; [|congruence].
    rewrite Hrows, Hrows1, List.map_map.
    apply List.map_ext. intros r.
    unfold Logic.overwritten. cbn [Logic.last_update].
    rewrite Hid, Hc.
    destruct (id r =? i)%Z eqn:E; cbn [id];
      destruct (last_update rest (id r)); reflexivity.
Qed.

Lemma update_only_truthy (t : table) (items : list item) :
  ids_positive t -> Stated.update_only t items ->
  forall it, In it items -> truthy_id it <> None.
Proof.
  intros Hpos Hupd it Hit.
  destruct (Hupd it Hit) as (i & Hi & r & Hr & <-).
  unfold truthy_id. rewrite Hi. specialize (Hpos r Hr).
  destruct (id r =? 0)%Z eqn:E; [|discriminate].
  apply Z.eqb_eq in E. lia.
Qed.

(** C5: for every table and every batch in which every item carries the
    id of a stored row, applying the batch twice leaves the same stored
    state as applying it once. *)
Theorem ReconcileAll_updates_idempotent (t : table) (items : list item) :
  ids_positive t ->
  Stated.update_only t items ->
  ReconcileAll (ReconcileAll t items) items = ReconcileAll t items.
Proof.
  intros Hpos Hupd.
  pose proof (update_only_truthy t items Hpos Hupd) as Hids.
  unfold Logic.ReconcileAll.
  destruct (save_all_campers t items) as [t1|e] eqn:Hone; cbn [committed].
  - destruct (save_all_campers t1 items) as [t2|e] eqn:Htwo; cbn [committed];
      [|reflexivity].
    destruct (save_all_updates items Hids t t1 Hone) as [Hrows1 Hseq1].
    destruct (save_all_updates items Hids t1 t2 Htwo) as [Hrows2 Hseq2].
    destruct t1 as [rows1 seq1], t2 as [rows2 seq2]. cbn [rows seq] in *.
    f_equal; [|congruence].
    rewrite Hrows2, Hrows1, List.map_map.
    apply List.map_ext. intros r. apply overwritten_twice.
  - now rewrite Hone.
Qed.

End UpdateBatches.

Lemma ReconcileAll_updates_idempotent_witness :
  let batch := [Logic.grid_item (Some 1%Z) "Anna" "Lee" "555-1234" 4] in
  Logic.ReconcileAll Logic.no_float
    (Logic.ReconcileAll Logic.no_float Logic.ann_table batch) batch
  = Logic.ReconcileAll Logic.no_float Logic.ann_table batch.
Proof.
  apply (ReconcileAll_updates_idempotent Logic.no_float Logic.ann_table).
  - intros r [<-|[]]. reflexivity.
  - intros it [<-|[]]. exists 1%Z. split; [reflexivity|].
    eexists. split; [left; reflexivity|reflexivity].
Defined.

(** * Reconciliation: batches of inserts *)

Section InsertBatches.

Import Logic.

Variable float_of_str : string -> option Q.

Local Abbreviation save_item := (Logic.save_item float_of_str).
Local Abbreviation save_all_campers := (Logic.save_all_campers float_of_str).
Local Abbreviation ReconcileAll := (Logic.ReconcileAll float_of_str).
Local Abbreviation reads_as := (Stated.reads_as float_of_str).

Lemma number_taken_stored (t : table) (n : string) :
  number_taken (rows t) None n = true <-> In n (Stated.stored_numbers t).
Proof.
  rewrite number_taken_In. unfold Stated.stored_numbers. rewrite in_map_iff.
  split; intros (r & H1 & H2); exists r; auto.
Qed.

Lemma save_all_campers_app (items1 items2 : list item) :
  forall t,
    save_all_campers t (items1 ++ items2)
    = do t1 <- save_all_campers t items1; save_all_campers t1 items2.
Proof.
  induction items1 as [|it items1 IH]; intros t; [reflexivity|].
  cbn [app Logic.save_all_campers].
  destruct (save_item t it) as [t1|e]; cbn [bind]; [apply IH|reflexivity].
Qed.

(** An item without an id is inserted, or skipped when its number is
    taken; neither raises. *)
Lemma save_item_insert (t : table) (it : item) (c : columns) :
  reads_as it c -> save_item t it = Ok (sql_insert_or_ignore t c).
Proof.
  intros [Hid Hc]. unfold Logic.save_item, truthy_id. now rewrite Hid, Hc.
Qed.

Lemma sql_insert_or_ignore_fresh (t : table) (c : columns) :
  ~ In (number c) (Stated.stored_numbers t) ->
  rows (sql_insert_or_ignore t c)
  = rows t ++ [{| id := next_rowid t; cols := c |}].
Proof.
  intros Hfresh. unfold sql_insert_or_ignore.
  destruct (number_taken (rows t) None (number c)) eqn:E; [|reflexivity].
  now apply number_taken_stored in E.
Qed.

Lemma sql_insert_or_ignore_taken (t : table) (c : columns) :
  In (number c) (Stated.stored_numbers t) ->
  rows (sql_insert_or_ignore t c) = rows t.
Proof.
  intros Htaken. apply number_taken_stored in Htaken.
  unfold sql_insert_or_ignore. now rewrite Htaken.
Qed.

(** A run of valid inserts stores all of them, in order. *)
Lemma save_all_fresh (items : list item) (cs : list columns) :
  Forall2 reads_as items cs ->
  forall t, Stated.fresh_distinct t cs ->
    exists t', save_all_campers t items = Ok t'
               /\ Stated.persists_exactly t t' cs.
Proof.
  induction 1 as [|it c items cs Hit Hrest IH]; intros t [Hnodup Hfresh].
  - exists t. split; [reflexivity|]. exists []. now rewrite app_nil_r.
  - cbn [Logic.save_all_campers]. rewrite (save_item_insert t it c Hit).
    cbn [bind]. cbn [List.map] in Hnodup.
    apply List.NoDup_cons_iff in Hnodup as [Hc Hnodup].
    assert (Hrows : rows (sql_insert_or_ignore t c)
                    = rows t ++ [{| id := next_rowid t; cols := c |}])
      by (apply sql_insert_or_ignore_fresh, Hfresh; now left).
    destruct (IH (sql_insert_or_ignore t c)) as (t' & Hrun & new & Hnew & Hcols).
    { split; [exact Hnodup|]. intros c' Hc' Hin.
      unfold Stated.stored_numbers in Hin. rewrite Hrows, List.map_app in Hin.
      apply in_app_or in Hin as [Hin|[Heq|[]]].
      - apply (Hfresh c'); [now right|exact Hin].
      - apply Hc. cbn [cols] in Heq. rewrite Heq. now apply in_map. }
    exists t'. split; [exact Hrun|].
    exists ({| id := next_rowid t; cols := c |} :: new).
    rewrite Hnew, Hrows, <- app_assoc. split; [reflexivity|].
    cbn [List.map cols]. now rewrite Hcols.
Qed.

(** C4 (amended): for every table and every batch of N id-less records
    with pairwise distinct fresh numbers plus one id-less record whose
    number is the number of a stored record or of a sibling that stands
    before it in the batch, the batch goes through, the table gains
    exactly the N records, and the duplicate is skipped. *)
Theorem ReconcileAll_skips_later_duplicate
    (t : table) (before after : list item) (dup : item)
    (cb ca : list columns) (cd : columns) :
  Forall2 reads_as before cb ->
  Forall2 reads_as after ca ->
  reads_as dup cd ->
  Stated.fresh_distinct t (cb ++ ca) ->
  In (number cd) (Stated.stored_numbers t)
  \/ In (number cd) (List.map number cb) ->
  exists t',
    save_all_campers t (before ++ dup :: after) = Ok t'
    /\ ReconcileAll t (before ++ dup :: after) = t'
    /\ Stated.persists_exactly t t' (cb ++ ca)
    /\ length (rows t') = length (rows t) + length (cb ++ ca).
Proof.
  intros Hb Ha Hd [Hnodup Hfresh] Hdup.
  rewrite List.map_app in Hnodup.
  apply NoDup_ListNoDup, NoDup_app in Hnodup as (Hnb & Hdisj & Hna).
  apply NoDup_ListNoDup in Hnb, Hna.
  destruct (save_all_fresh before cb Hb t) as (t1 & Hrun1 & new1 & Hrows1 & Hcols1).
  { split; [exact Hnb|]. intros c Hc. apply Hfresh, in_or_app. now left. }
  set (t2 := sql_insert_or_ignore t1 cd).
  assert (Hrows2 : rows t2 = rows t1).
  { apply sql_insert_or_ignore_taken.
    unfold Stated.stored_numbers. rewrite Hrows1, List.map_app.
    apply in_or_app. destruct Hdup as [Hdup|Hdup]; [now left|right].
    rewrite <- Hcols1 in Hdup. now rewrite List.map_map in Hdup. }
  destruct (save_all_fresh after ca Ha t2) as (t3 & Hrun3 & new3 & Hrows3 & Hcols3).
  { split; [exact Hna|]. intros c Hc Hin.
    unfold Stated.stored_numbers in Hin.
    rewrite Hrows2, Hrows1, List.map_app in Hin.
    apply in_app_or in Hin as [Hin|Hin].
    - apply (Hfresh c); [apply in_or_app; now right|exact Hin].
    - apply (Hdisj (number c)).
      + apply list_elem_of_In. rewrite <- Hcols1, List.map_map. exact Hin.
      + apply list_elem_of_In. now apply in_map. }
  assert (Hrun : save_all_campers t (before ++ dup :: after) = Ok t3).
  { rewrite save_all_campers_app, Hrun1. cbn [bind Logic.save_all_campers].
    rewrite (save_item_insert t1 dup cd Hd). exact Hrun3. }
  assert (Hrows : rows t3 = rows t ++ (new1 ++ new3))
    by (now rewrite Hrows3, Hrows2, Hrows1, <- app_assoc).
  exists t3. split; [exact Hrun|]. split.
  - unfold Logic.ReconcileAll. now rewrite Hrun.
  - split.
    + exists (new1 ++ new3). split; [exact Hrows|].
      now rewrite List.map_app, Hcols1, Hcols3.
    + rewrite Hrows, <- Hcols1, <- Hcols3, !length_app, !length_map. reflexivity.
Qed.

End InsertBatches.

(** C4, as stated, fails when the duplicate stands before the sibling
    whose number it shares: the first of the two is inserted, so the record
    counted among the valid ones is the one that is skipped. *)
Lemma duplicate_before_sibling_wins :
  ~ Stated.skips_the_duplicate Logic.no_float.
Proof.
  intros Hclaim.
  destruct (Hclaim Logic.init_db []
              [Logic.grid_item None "Ann" "Lee" "555-1234" 4]
              (Logic.grid_item None "Dup" "Lee" "555-1234" 1)
              []
              [Logic.grid_columns "Ann" "Lee" "555-1234" 4]
              (Logic.grid_columns "Dup" "Lee" "555-1234" 1))
    as (t' & Hrun & new & Hrows & Hcols).
  - constructor.
  - constructor; [split; reflexivity|constructor].
  - split; reflexivity.
  - split.
    + cbn. constructor; [intros []|constructor].
    + intros c _ [].
  - right. left. reflexivity.
  - vm_compute in Hrun. injection Hrun as <-.
    cbn in Hrows. subst new. cbn in Hcols. discriminate.
Qed.

Lemma ReconcileAll_skips_later_duplicate_witness :
  let ann := Logic.grid_item None "Ann" "Lee" "555-1234" 4 in
  let dup := Logic.grid_item None "Dup" "Lee" "555-1234" 1 in
  let bob := Logic.grid_item None "Bob" "Ray" "555-9999" 3 in
  let stored := [Logic.grid_columns "Ann" "Lee" "555-1234" 4]
                ++ [Logic.grid_columns "Bob" "Ray" "555-9999" 3] in
  exists t',
    Logic.save_all_campers Logic.no_float Logic.init_db ([ann] ++ dup :: [bob]) = Ok t'
    /\ Logic.ReconcileAll Logic.no_float Logic.init_db ([ann] ++ dup :: [bob]) = t'
    /\ Stated.persists_exactly Logic.init_db t' stored
    /\ length (Logic.rows t') = length (Logic.rows Logic.init_db) + length stored.
Proof.
  intros ann dup bob stored.
  apply (ReconcileAll_skips_later_duplicate Logic.no_float Logic.init_db
           [ann] [bob] dup
           [Logic.grid_columns "Ann" "Lee" "555-1234" 4]
           [Logic.grid_columns "Bob" "Ray" "555-9999" 3]
           (Logic.grid_columns "Dup" "Lee" "555-1234" 1)).
  - constructor; [split; reflexivity|constructor].
  - constructor; [split; reflexivity|constructor].
  - split; reflexivity.
  - split.
    + cbn. constructor.
      * intros [H|[]]. discriminate.
      * constructor; [intros []|constructor].
    + intros c _ [].
  - right. left. reflexivity.
Defined.

(** * Reconciliation does not validate *)

Section NoValidation.

Import Logic.

Variable float_of_str : string -> option Q.

Local Abbreviation save_item := (Logic.save_item float_of_str).
Local Abbreviation ReconcileAll := (Logic.ReconcileAll float_of_str).
Local Abbreviation bound := (Logic.bound float_of_str).
Local Abbreviation float := (Logic.float float_of_str).

Lemma number_taken_other (rs : list row) (i : Z) (n : string) :
  (forall r, In r rs -> number (cols r) = n -> id r = i) ->
  number_taken rs (Some i) n = false.
Proof.
  intros Hown. unfold number_taken.
  destruct (existsb _ rs) eqn:E; [|reflexivity].
  apply existsb_exists in E as (r & Hr & H).
  apply andb_true_iff in H as [Hn Hi].
  apply String.eqb_eq in Hn. rewrite (Hown r Hr Hn), Z.eqb_refl in Hi.
  discriminate.
Qed.

(** The tuple that is bound holds the values of the item as they are. *)
Lemma bound_as_supplied (it : item) (c : columns) :
  bound it = Ok c ->
  name c = default "" (item_name it)
  /\ surname c = default "" (item_surname it)
  /\ email c = default "" (item_email it)
  /\ number c = default "" (item_number it)
  /\ note c = default "" (item_note it)
  /\ status c = default "" (item_status it)
  /\ float (item_rating it) = Ok (rating c).
Proof.
  unfold Logic.bound. destruct (float (item_rating it)) as [q|]; [|discriminate].
  intros H. injection H as <-. repeat split; reflexivity.
Qed.

(** C10: [ReconcileAll] validates nothing.  For every item, the values
    bound are the name, surname, email, number, note and status as
    supplied and the rating as a float; on the update path the row of the
    id holds them afterwards, on the insert path a new row does, with no
    condition but the uniqueness of the number; a camper that every rule
    of [is_valid] rejects is stored on both paths, while the submission
    of a form stores nothing unless [is_valid] accepts it. *)
Theorem ReconcileAll_does_not_validate (t : table) :
  (forall it c, bound it = Ok c ->
     name c = default "" (item_name it)
     /\ surname c = default "" (item_surname it)
     /\ email c = default "" (item_email it)
     /\ number c = default "" (item_number it)
     /\ note c = default "" (item_note it)
     /\ status c = default "" (item_status it)
     /\ float (item_rating it) = Ok (rating c))
  /\ (forall it c i,
        bound it = Ok c -> truthy_id it = Some i ->
        (exists r, In r (rows t) /\ id r = i) ->
        (forall r, In r (rows t) -> number (cols r) = number c -> id r = i) ->
        exists t', save_item t it = Ok t'
                   /\ In {| id := i; cols := c |} (rows t')
                   /\ forall r, In r (rows t') -> id r = i -> cols r = c)
  /\ (forall it c,
        bound it = Ok c -> truthy_id it = None ->
        (forall r, In r (rows t) -> number (cols r) <> number c) ->
        exists t', save_item t it = Ok t'
                   /\ rows t' = rows t ++ [{| id := next_rowid t; cols := c |}])
  /\ (forall f : form,
        Models.is_valid
          (Models.UserData_init (name_entry f) (number_entry f) (surname_entry f)
             (note_entry f) (rating_var f) (email_entry f) (status_var f)) = false ->
        handle_submit t f = Ok t)
  /\ (handle_submit init_db invalid_form = Ok init_db
      /\ ReconcileAll init_db [invalid_item None]
         = {| rows := [{| id := 1; cols := invalid_columns |}]; seq := 1 |}
      /\ ReconcileAll ann_table [invalid_item (Some 1%Z)]
         = {| rows := [{| id := 1; cols := invalid_columns |}]; seq := 1 |}).
Proof.
  split; [exact bound_as_supplied|].
  split; [|split; [|split]].
  - intros it c i Hc Hid (r0 & Hr0 & Hi0) Hown.
    unfold Logic.save_item. rewrite Hid, Hc. cbn [bind].
    unfold sql_update.
    assert (Hex : existsb (fun r => (id r =? i)%Z) (rows t) = true).
    { apply existsb_exists. exists r0. split; [exact Hr0|]. now apply Z.eqb_eq. }
    rewrite Hex, (number_taken_other _ _ _ Hown).
    eexists. split; [reflexivity|]. cbn [rows]. split.
    + apply in_map_iff. exists r0. split; [|exact Hr0].
      apply Z.eqb_eq in Hi0. rewrite Hi0. f_equal. now apply Z.eqb_eq.
    + intros r Hr Hi. apply in_map_iff in Hr as (r' & <- & _).
      destruct (id r' =? i)%Z eqn:E; [reflexivity|].
      apply Z.eqb_neq in E. contradiction.
  - intros it c Hc Hid Hfresh.
    unfold Logic.save_item. rewrite Hid, Hc. cbn [bind].
    eexists. split; [reflexivity|].
    unfold sql_insert_or_ignore.
    destruct (number_taken (rows t) None (number c)) eqn:E; [|reflexivity].
    apply number_taken_In in E as (r & Hr & Hn). now destruct (Hfresh r Hr).
  - intros f Hinvalid. unfold handle_submit. now rewrite Hinvalid.
  - repeat split; vm_compute; reflexivity.
Qed.

End NoValidation.

Lemma ReconcileAll_does_not_validate_witness :
  Models.is_valid
    (Models.UserData_init "" "call 555-1234 after 9pm" "" "" (inject_Z 9)
       "nobody" "purple") = false
  /\ (exists t',
        Logic.save_item Logic.no_float Logic.ann_table (Logic.invalid_item (Some 1%Z))
        = Ok t'
        /\ In {| Logic.id := 1; Logic.cols := Logic.invalid_columns |} (Logic.rows t')
        /\ forall r, In r (Logic.rows t') -> Logic.id r = 1%Z ->
                     Logic.cols r = Logic.invalid_columns)
  /\ (exists t',
        Logic.save_item Logic.no_float Logic.ann_table (Logic.invalid_item None)
        = Ok t'
        /\ Logic.rows t'
           = Logic.rows Logic.ann_table
             ++ [{| Logic.id := Logic.next_rowid Logic.ann_table;
                    Logic.cols := Logic.invalid_columns |}])
  /\ Logic.handle_submit Logic.ann_table Logic.invalid_form = Ok Logic.ann_table.
Proof.
  destruct (ReconcileAll_does_not_validate Logic.no_float Logic.ann_table)
    as (_ & Hupdate & Hinsert & Hsubmit & _).
  split; [reflexivity|]. split; [|split].
  - apply (Hupdate (Logic.invalid_item (Some 1%Z)) Logic.invalid_columns 1%Z).
    + reflexivity.
    + reflexivity.
    + eexists. split; [left; reflexivity|reflexivity].
    + intros r [<-|[]] _. reflexivity.
  - apply (Hinsert (Logic.invalid_item None) Logic.invalid_columns).
    + reflexivity.
    + reflexivity.
    + intros r [<-|[]]. discriminate.
  - apply Hsubmit. reflexivity.
Defined.

(** * The backup of the store file *)

Section BackupOfTheStore.

Import Backup.

(** ** Strings put together *)

Lemma append_assoc (a b c : string) : ((a ++ b) ++ c = a ++ (b ++ c))%string.
Proof.
  induction a as [|x a IH]; [reflexivity|].
  change (String x ((a ++ b) ++ c) = String x (a ++ (b ++ c)))%string.
  now rewrite IH.
Qed.

Lemma append_empty_r (a : string) : (a ++ "" = a)%string.
Proof.
  induction a as [|x a IH]; [reflexivity|].
  change (String x (a ++ "") = String x a)%string. now rewrite IH.
Qed.

Lemma length_append (a b : string) :
  String.length (a ++ b) = String.length a + String.length b.
Proof.
  induction a as [|x a IH]; [reflexivity|].
  change (S (String.length (a ++ b)) = S (String.length a + String.length b)).
  now rewrite IH.
Qed.

Lemma append_inj_r (a b c : string) : (a ++ b = a ++ c)%string -> b = c.
Proof.
  induction a as [|x a IH]; [auto|].
  change (String x (a ++ b) = String x (a ++ c) -> b = c)%string.
  intros H. injection H as H. auto.
Qed.

(** Two strings that begin with strings of one length. *)
Lemma append_inj_length (a a' b b' : string) :
  String.length a = String.length a' ->
  (a ++ b = a' ++ b')%string -> a = a' /\ b = b'.
Proof.
  revert a'. induction a as [|x a IH]; intros [|x' a'] Hlen H;
    try discriminate Hlen.
  - split; [reflexivity|exact H].
  - change (String x (a ++ b) = String x' (a' ++ b'))%string in H.
    injection H as -> H. injection Hlen as Hlen.
    destruct (IH a' Hlen H) as [-> ->]. split; reflexivity.
Qed.

(** ** Paths *)

Lemma endswith_sep_append (a b : string) :
  b <> "" -> endswith_sep (a ++ b) = endswith_sep b.
Proof.
  intros Hb. induction a as [|x a IH]; [reflexivity|].
  change (endswith_sep (String x (a ++ b)) = endswith_sep b).
  cbn [endswith_sep]. destruct (a ++ b)%string as [|y rest] eqn:E.
  - destruct a; [now cbn in E|discriminate E].
  - exact IH.
Qed.

(** A relative name is put behind the path and, where the path does
    not bring it, a slash. *)
Lemma join_relative (path : string) :
  exists slashed,
    (slashed = "" \/ endswith_sep slashed = true)
    /\ forall b, startswith_sep b = false -> join path b = (slashed ++ b)%string.
Proof.
  destruct (negb (Py.truthy path) || endswith_sep path) eqn:E.
  - exists path. split.
    + destruct path; [now left|right; exact E].
    + intros b Hb. unfold join. now rewrite Hb, E.
  - exists (path ++ "/")%string. split.
    + right. now apply endswith_sep_append.
    + intros b Hb. unfold join. now rewrite Hb, E, append_assoc.
Qed.

(** Behind a path that does not end in a slash, the name is put after
    a slash. *)
Lemma join_behind (path b : string) :
  startswith_sep b = false -> Py.truthy path = true ->
  endswith_sep path = false ->
  join path b = (path ++ "/" ++ b)%string.
Proof. intros Hb Hpath Hend. unfold join. now rewrite Hb, Hpath, Hend. Qed.

Lemma join_inj (path b b' : string) :
  startswith_sep b = false -> startswith_sep b' = false ->
  join path b = join path b' -> b = b'.
Proof.
  intros Hb Hb'. destruct (join_relative path) as (slashed & _ & Hjoin).
  rewrite (Hjoin b Hb), (Hjoin b' Hb'). apply append_inj_r.
Qed.

Lemma has_sep_append (a b : string) :
  endswith_sep a = true -> has_sep (a ++ b) = true.
Proof.
  induction a as [|x a IH]; [discriminate|].
  change (endswith_sep (String x a) = true
          -> has_sep (String x (a ++ b)) = true).
  cbn [endswith_sep has_sep]. destruct a as [|y a].
  - now intros ->.
  - intros H. rewrite (IH H). apply orb_true_r.
Qed.

(** The name behind the last slash of a path is its [basename]. *)
Lemma basename_append (a b : string) :
  a = "" \/ endswith_sep a = true -> has_sep b = false ->
  basename (a ++ b) = b.
Proof.
  intros Ha Hb. induction a as [|x a IH].
  - destruct b as [|y b]; [reflexivity|].
    change (basename (String y b) = String y b). cbn [has_sep] in Hb.
    apply orb_false_iff in Hb as [Hy Hb]. cbn [basename]. now rewrite Hb, Hy.
  - destruct Ha as [Ha|Ha]; [discriminate Ha|].
    change (basename (String x (a ++ b)) = b). cbn [basename].
    destruct a as [|y a].
    + cbn [endswith_sep] in Ha. change ("" ++ b)%string with b.
      now rewrite Hb, Ha.
    + rewrite (has_sep_append (String y a) b Ha). apply IH. now right.
Qed.

Variable here : string.

Local Abbreviation db_path := (get_db_path here).
Local Abbreviation backup_dir := (join here "backups").

(** The name of a backup is put behind the backup directory and a
    slash. *)
Lemma join_backup_dir (name : string) :
  startswith_sep name = false ->
  join backup_dir name = (backup_dir ++ "/" ++ name)%string.
Proof.
  intros Hname. destruct (join_relative here) as (slashed & _ & Hjoin).
  rewrite (Hjoin "backups" eq_refl).
  apply join_behind; [exact Hname| |].
  - now destruct slashed.
  - now apply endswith_sep_append.
Qed.

(** The backup never overwrites the store file. *)
Lemma backup_path_not_db_path (name : string) :
  startswith_sep name = false -> join backup_dir name <> db_path.
Proof.
  intros Hname. rewrite (join_backup_dir name Hname). unfold get_db_path.
  destruct (join_relative here) as (slashed & _ & Hjoin).
  rewrite (Hjoin "backups" eq_refl), (Hjoin "campers.db" eq_refl).
  rewrite append_assoc. intros H. apply append_inj_r in H. discriminate H.
Qed.

Lemma backup_path_not_backup_dir (name : string) :
  startswith_sep name = false -> join backup_dir name <> backup_dir.
Proof.
  intros Hname. rewrite (join_backup_dir name Hname). intros H.
  apply (f_equal String.length) in H. rewrite length_append in H.
  change (String.length ("/" ++ name)) with (S (String.length name)) in H.
  lia.
Qed.

Lemma backup_dir_not_db_path : backup_dir <> db_path.
Proof.
  unfold get_db_path. destruct (join_relative here) as (slashed & _ & Hjoin).
  rewrite (Hjoin "backups" eq_refl), (Hjoin "campers.db" eq_refl).
  intros H. apply append_inj_r in H. discriminate H.
Qed.

(** ** The timestamp *)

Lemma zero_padded_acc (width : nat) :
  forall n acc,
    zero_padded width n acc = (zero_padded width n "" ++ acc)%string.
Proof.
  induction width as [|width IH]; intros n acc; [reflexivity|].
  cbn [zero_padded]. rewrite IH, (IH _ (String (digit n) "")).
  now rewrite append_assoc.
Qed.

Lemma zero_padded_length (width : nat) :
  forall n acc,
    String.length (zero_padded width n acc) = width + String.length acc.
Proof.
  induction width as [|width IH]; intros n acc; [reflexivity|].
  cbn [zero_padded]. rewrite IH. cbn. lia.
Qed.

Lemma digit_value_digit (n : nat) :
  Stated.digit_value (digit n) = Some (n mod 10).
Proof.
  pose proof (Nat.mod_upper_bound n 10 ltac:(lia)) as Hlt.
  unfold Stated.digit_value, digit.
  rewrite nat_ascii_embedding by lia.
  destruct (Nat.leb_spec 48 (48 + n mod 10)); [|lia].
  destruct (Nat.leb_spec (48 + n mod 10) 57); [|lia].
  cbn [andb]. f_equal. lia.
Qed.

Lemma decimal_append (s t : string) :
  forall acc,
    Stated.decimal acc (s ++ t)
    = match Stated.decimal acc s with
      | Some n => Stated.decimal n t
      | None => None
      end.
Proof.
  induction s as [|c s IH]; intros acc; [reflexivity|].
  change (Stated.decimal acc (String c (s ++ t))
          = match Stated.decimal acc (String c s) with
            | Some n => Stated.decimal n t
            | None => None
            end).
  cbn [Stated.decimal]. destruct (Stated.digit_value c); [apply IH|reflexivity].
Qed.

(** The padded digits of a number write the number. *)
Lemma numeral_zero_padded (width : nat) :
  forall n, n < 10 ^ width -> Stated.numeral width (zero_padded width n "") n.
Proof.
  unfold Stated.numeral.
  induction width as [|width IH]; intros n Hn.
  - cbn in *. split; [reflexivity|f_equal; lia].
  - rewrite Nat.pow_succ_r' in Hn. split.
    + rewrite zero_padded_length. cbn. lia.
    + cbn [zero_padded]. rewrite zero_padded_acc, decimal_append.
      destruct (IH (n / 10)) as [_ ->];
        [apply Nat.Div0.div_lt_upper_bound; lia|].
      cbn [Stated.decimal]. rewrite digit_value_digit. f_equal.
      pose proof (Nat.div_mod_eq n 10). lia.
Qed.

(** The path [create_db_backup] chooses is the timestamped path of the
    moment. *)
Lemma timestamped_strftime (now : datetime) :
  calendar now ->
  Stated.timestamped backup_dir
    (join backup_dir ("campers_backup_" ++ strftime now ++ ".db")) now.
Proof.
  intros (Hyear & Hmonth & Hday & Hhour & Hminute & Hsecond).
  exists (zero_padded 4 (year now) ""), (zero_padded 2 (month now) ""),
    (zero_padded 2 (day now) ""), (zero_padded 2 (hour now) ""),
    (zero_padded 2 (minute now) ""), (zero_padded 2 (second now) "").
  split; [|repeat split; try (apply numeral_zero_padded; cbn; lia)].
  unfold strftime. now rewrite !append_assoc.
Qed.

(** A timestamped path tells its moment. *)
Lemma timestamped_moment (directory path : string) (now now' : datetime) :
  Stated.timestamped directory path now ->
  Stated.timestamped directory path now' ->
  now = now'.
Proof.
  intros (Y & M & D & h & m & s & -> & [LY HY] & [LM HM] & [LD HD]
          & [Lh Hh] & [Lm Hm] & [Ls Hs]).
  intros (Y' & M' & D' & h' & m' & s' & Hpath & [LY' HY'] & [LM' HM']
          & [LD' HD'] & [Lh' Hh'] & [Lm' Hm'] & [Ls' Hs']).
  apply join_inj in Hpath; [|reflexivity|reflexivity].
  apply append_inj_r in Hpath.
  apply append_inj_length in Hpath as [<- Hpath]; [|congruence].
  apply append_inj_length in Hpath as [<- Hpath]; [|congruence].
  apply append_inj_length in Hpath as [<- Hpath]; [|congruence].
  apply (append_inj_r "_") in Hpath.
  apply append_inj_length in Hpath as [<- Hpath]; [|congruence].
  apply append_inj_length in Hpath as [<- Hpath]; [|congruence].
  apply append_inj_length in Hpath as [<- _]; [|congruence].
  destruct now, now'. cbn [year month day hour minute second] in *.
  congruence.
Qed.

(** ** The call *)

(** Where no regular file is in the way, the directory is there after
    [makedirs]. *)
Lemma makedirs_made (name : string) (fs : filesystem) :
  (forall other, fs !! name <> Some (File other)) ->
  makedirs name fs = (Ok tt, <[name := Directory]> fs).
Proof.
  intros Hdir. unfold makedirs. destruct (fs !! name) as [[other|]|] eqn:E.
  - now destruct (Hdir other).
  - now rewrite insert_id.
  - reflexivity.
Qed.

(** With the store file present, no regular file in the place of the
    backup directory and no directory in the place of the backup, the
    backup directory is there after the call, and the bytes of the
    store file are at the path of the backup. *)
Lemma create_db_backup_copies (now : datetime) (fs : filesystem)
    (bytes : list Byte.byte) :
  let backup_path :=
    join backup_dir ("campers_backup_" ++ strftime now ++ ".db") in
  fs !! db_path = Some (File bytes) ->
  (forall other, fs !! backup_dir <> Some (File other)) ->
  fs !! backup_path <> Some Directory ->
  create_db_backup here now fs
  = (Ok backup_path,
     <[backup_path := File bytes]> (<[backup_dir := Directory]> fs)).
Proof.
  intros backup_path Hfile Hdir Hpath.
  assert (Hname : startswith_sep ("campers_backup_" ++ strftime now ++ ".db")
                  = false) by reflexivity.
  pose proof (backup_path_not_db_path _ Hname) as Hdb.
  pose proof (backup_path_not_backup_dir _ Hname) as Hbd.
  pose proof backup_dir_not_db_path as Hdd.
  fold backup_path in Hdb, Hbd.
  pose proof (makedirs_made backup_dir fs Hdir) as Hmade.
  unfold create_db_backup, and_then, exists_. rewrite Hfile. cbn [negb].
  unfold get_backup_dir, and_then. rewrite Hmade. unfold ret.
  fold backup_path. unfold copy2, and_then, isdir.
  rewrite (lookup_insert_ne _ backup_dir backup_path) by congruence.
  assert (Hcopy : copyfile db_path backup_path (<[backup_dir := Directory]> fs)
                  = (Ok backup_path,
                     <[backup_path := File bytes]>
                       (<[backup_dir := Directory]> fs))).
  { unfold copyfile.
    rewrite (lookup_insert_ne _ backup_dir db_path) by exact Hdd.
    rewrite Hfile.
    destruct (String.eqb_spec db_path backup_path) as [E|_];
      [now destruct Hdb|].
    rewrite (lookup_insert_ne _ backup_dir backup_path) by congruence.
    destruct (fs !! backup_path) as [[other|]|]; [reflexivity| |reflexivity].
    now destruct Hpath. }
  destruct (fs !! backup_path) as [[other|]|] eqn:E.
  - now rewrite Hcopy.
  - now destruct Hpath.
  - now rewrite Hcopy.
Qed.

(** A directory in the place of the store file passes the test of
    [os.path.exists]: the backup directory is made, and then [copy2]
    fails. *)
Lemma create_db_backup_of_a_directory (now : datetime) (fs : filesystem) :
  let backup_path :=
    join backup_dir ("campers_backup_" ++ strftime now ++ ".db") in
  fs !! db_path = Some Directory ->
  (forall other, fs !! backup_dir <> Some (File other)) ->
  fs !! backup_path <> Some Directory ->
  create_db_backup here now fs
  = (Raise IsADirectoryError, <[backup_dir := Directory]> fs).
Proof.
  intros backup_path Hstore Hdir Hpath.
  pose proof (backup_path_not_db_path
                ("campers_backup_" ++ strftime now ++ ".db") eq_refl) as Hdb.
  pose proof (backup_path_not_backup_dir
                ("campers_backup_" ++ strftime now ++ ".db") eq_refl) as Hbd.
  pose proof backup_dir_not_db_path as Hdd.
  fold backup_path in Hdb, Hbd.
  pose proof (makedirs_made backup_dir fs Hdir) as Hmade.
  unfold create_db_backup, and_then, exists_. rewrite Hstore. cbn [negb].
  unfold get_backup_dir, and_then. rewrite Hmade. unfold ret.
  fold backup_path. unfold copy2, and_then, isdir, copyfile.
  rewrite (lookup_insert_ne _ backup_dir backup_path) by congruence.
  destruct (fs !! backup_path) as [[other|]|] eqn:E;
    try (now destruct Hpath);
    rewrite (lookup_insert_ne _ backup_dir db_path) by exact Hdd;
    rewrite Hstore;
    (destruct (String.eqb_spec db_path backup_path) as [Heq|_];
       [now destruct Hdb|reflexivity]).
Qed.

(** A directory in the place of the backup takes the copy in: the path
    that is returned is the directory, and the bytes of the store file
    are in its file [campers.db]. *)
Lemma create_db_backup_into_a_directory (now : datetime) (fs : filesystem)
    (bytes : list Byte.byte) :
  let backup_path :=
    join backup_dir ("campers_backup_" ++ strftime now ++ ".db") in
  fs !! db_path = Some (File bytes) ->
  (forall other, fs !! backup_dir <> Some (File other)) ->
  fs !! backup_path = Some Directory ->
  fs !! join backup_path "campers.db" <> Some Directory ->
  create_db_backup here now fs
  = (Ok backup_path,
     <[join backup_path "campers.db" := File bytes]>
       (<[backup_dir := Directory]> fs)).
Proof.
  intros backup_path Hstore Hdir Hpath Hinside.
  pose proof (backup_path_not_backup_dir
                ("campers_backup_" ++ strftime now ++ ".db") eq_refl) as Hbd.
  pose proof backup_dir_not_db_path as Hdd.
  fold backup_path in Hbd.
  assert (Hbase : basename db_path = "campers.db").
  { unfold get_db_path. destruct (join_relative here) as (slashed & Hs & Hjoin).
    rewrite (Hjoin "campers.db" eq_refl). now apply basename_append. }
  assert (Hbp : backup_path
                = ((backup_dir ++ "/campers_backup_" ++ strftime now)
                   ++ ".db")%string).
  { unfold backup_path.
    rewrite (join_backup_dir ("campers_backup_" ++ strftime now ++ ".db")
               eq_refl).
    now rewrite !append_assoc. }
  assert (Hjoin : join backup_path "campers.db"
                  = (backup_path ++ "/campers.db")%string).
  { apply join_behind; [reflexivity| |]; rewrite Hbp.
    - now destruct (backup_dir ++ "/campers_backup_" ++ strftime now)%string.
    - now apply endswith_sep_append. }
  assert (Hlonger : String.length backup_dir + 11
                    <= String.length (join backup_path "campers.db")).
  { rewrite Hjoin. unfold backup_path.
    rewrite (join_backup_dir ("campers_backup_" ++ strftime now ++ ".db") eq_refl).
    rewrite !length_append.
    change (String.length "/campers.db") with 11. lia. }
  assert (Htarget : join backup_path "campers.db" <> db_path
                    /\ join backup_path "campers.db" <> backup_dir).
  { split; intros H; rewrite H in Hlonger; [|lia].
    revert Hlonger. unfold get_db_path.
    destruct (join_relative here) as (slashed & _ & Hrel).
    rewrite (Hrel "backups" eq_refl), (Hrel "campers.db" eq_refl).
    rewrite !length_append.
    change (String.length "backups") with 7.
    change (String.length "campers.db") with 10. lia. }
  destruct Htarget as [Htdb Htbd].
  pose proof (makedirs_made backup_dir fs Hdir) as Hmade.
  unfold create_db_backup, and_then, exists_. rewrite Hstore. cbn [negb].
  unfold get_backup_dir, and_then. rewrite Hmade. unfold ret.
  fold backup_path. unfold copy2, and_then, isdir.
  rewrite (lookup_insert_ne _ backup_dir backup_path) by congruence.
  rewrite Hpath, Hbase. unfold copyfile.
  rewrite (lookup_insert_ne _ backup_dir db_path) by exact Hdd.
  rewrite Hstore.
  destruct (String.eqb_spec db_path (join backup_path "campers.db")) as [Heq|_];
    [now destruct Htdb|].
  rewrite (lookup_insert_ne _ backup_dir (join backup_path "campers.db"))
    by congruence.
  destruct (fs !! join backup_path "campers.db") as [[other|]|];
    [reflexivity|now destruct Hinside|reflexivity].
Qed.

(** C9 (amended): the path of a backup is the file
    [campers_backup_<YYYYMMDD_HHMMSS>.db] of the moment inside the
    backup directory, and the path of another moment is another path.
    With nothing at the path of the store file, [Backup] fails with the
    not-found condition and leaves the file system as it was, so it
    creates no backup file.  With the store file present, no regular
    file in the place of the backup directory and nothing yet at the
    path of the backup, the call returns this path and leaves there a
    new file with the very bytes of the store file; the backup
    directory is made if needed, and nothing else is changed: the path
    of the backup is neither the store file nor the backup directory.
    With the store file present and a regular file in the place of the
    backup directory, the call fails with [FileExistsError] and changes
    nothing.  And with a file already at the path of the backup, as
    after a backup within the same second, the call puts the bytes of
    the store file into this file and makes no new one. *)
Theorem create_db_backup_outcomes (now : datetime) (fs : filesystem) :
  calendar now ->
  let backup_path :=
    join backup_dir ("campers_backup_" ++ strftime now ++ ".db") in
  Stated.timestamped backup_dir backup_path now
  /\ (forall now' path',
        Stated.timestamped backup_dir path' now' -> now' <> now ->
        path' <> backup_path)
  /\ (fs !! db_path = None ->
      create_db_backup here now fs = (Raise FileNotFoundError, fs))
  /\ (forall bytes,
        fs !! db_path = Some (File bytes) ->
        ((forall other, fs !! backup_dir <> Some (File other)) ->
         fs !! backup_path = None ->
         create_db_backup here now fs
         = (Ok backup_path,
            <[backup_path := File bytes]> (<[backup_dir := Directory]> fs))
         /\ backup_path <> db_path
         /\ backup_path <> backup_dir)
        /\ (forall other,
              fs !! backup_dir = Some (File other) ->
              create_db_backup here now fs = (Raise FileExistsError, fs))
        /\ (forall old,
              fs !! backup_dir = Some Directory ->
              fs !! backup_path = Some (File old) ->
              create_db_backup here now fs
              = (Ok backup_path, <[backup_path := File bytes]> fs))).
Proof.
  intros Hnow backup_path.
  pose proof (timestamped_strftime now Hnow) as Hstamp.
  fold backup_path in Hstamp.
  split; [exact Hstamp|split; [|split]].
  - intros now' path' Hstamp' Hdiff ->. apply Hdiff.
    exact (timestamped_moment _ _ _ _ Hstamp' Hstamp).
  - intros Habsent. unfold create_db_backup, and_then, exists_.
    now rewrite Habsent.
  - intros bytes Hfile. split; [|split].
    + intros Hdir Hnew. split; [|split].
      * apply create_db_backup_copies; [exact Hfile|exact Hdir|].
        fold backup_path. now rewrite Hnew.
      * now apply backup_path_not_db_path.
      * now apply backup_path_not_backup_dir.
    + intros other Hblocked.
      unfold create_db_backup, and_then, exists_. rewrite Hfile. cbn [negb].
      unfold get_backup_dir, and_then, makedirs. now rewrite Hblocked.
    + intros old Hdir Hold.
      rewrite <- (insert_id fs backup_dir Directory Hdir) at 2.
      apply create_db_backup_copies; [exact Hfile| |].
      * intros other. now rewrite Hdir.
      * fold backup_path. now rewrite Hold.
Qed.

End BackupOfTheStore.

(** C9, as stated, fails in two ways.  A second backup within the
    second of the first finds the file of the first at the timestamped
    path: the call overwrites it, and no path holds a file that was not
    there before.  And where a regular file has the name of the backup
    directory, the call fails with [FileExistsError] although the store
    file is present, and the file system stays as it was. *)
Lemma backup_without_a_new_file :
  ~ Stated.backup "/app" Backup.sample_now Backup.backed_up_fs
  /\ ~ Stated.backup "/app" Backup.sample_now Backup.blocked_fs.
Proof.
  split.
  - intros [_ Hpresent].
    destruct (Hpresent Backup.sample_bytes) as (path & _ & Hnew & Hfile);
      [vm_compute; reflexivity|].
    pose proof (create_db_backup_copies "/app" Backup.sample_now
                  Backup.backed_up_fs Backup.sample_bytes) as Hrun.
    cbv zeta in Hrun. rewrite Hrun in Hfile.
    + cbn [snd] in Hfile.
      rewrite lookup_insert_ne in Hfile
        by (intros <-; vm_compute in Hnew; discriminate Hnew).
      rewrite lookup_insert_ne in Hfile
        by (intros <-; vm_compute in Hnew; discriminate Hnew).
      rewrite Hnew in Hfile. discriminate Hfile.
    + vm_compute. reflexivity.
    + intros other H. vm_compute in H. discriminate H.
    + intros H. vm_compute in H. discriminate H.
  - intros [_ Hpresent].
    destruct (Hpresent Backup.sample_bytes) as (path & _ & Hnew & Hfile);
      [vm_compute; reflexivity|].
    assert (Hrun : Backup.create_db_backup "/app" Backup.sample_now
                     Backup.blocked_fs
                   = (Raise FileExistsError, Backup.blocked_fs))
      by (vm_compute; reflexivity).
    rewrite Hrun in Hfile. cbn [snd] in Hfile.
    rewrite Hnew in Hfile. discriminate Hfile.
Qed.

Lemma create_db_backup_outcomes_witness :
  Backup.create_db_backup "/app" Backup.sample_now Backup.empty_fs
  = (Raise FileNotFoundError, Backup.empty_fs)
  /\ Backup.create_db_backup "/app" Backup.sample_now Backup.sample_fs
     = (Ok "/app/backups/campers_backup_20250307_090542.db",
        <["/app/backups/campers_backup_20250307_090542.db"
          := Backup.File Backup.sample_bytes]>
          (<["/app/backups" := Backup.Directory]> Backup.sample_fs))
  /\ Backup.create_db_backup "/app" Backup.sample_now Backup.blocked_fs
     = (Raise FileExistsError, Backup.blocked_fs)
  /\ Backup.create_db_backup "/app" Backup.sample_now Backup.backed_up_fs
     = (Ok "/app/backups/campers_backup_20250307_090542.db",
        <["/app/backups/campers_backup_20250307_090542.db"
          := Backup.File Backup.sample_bytes]> Backup.backed_up_fs).
Proof.
  assert (Hnow : Backup.calendar Backup.sample_now)
    by (unfold Backup.calendar; cbn; lia).
  destruct (create_db_backup_outcomes "/app" Backup.sample_now Backup.empty_fs
              Hnow) as (_ & _ & Habsent & _).
  destruct (create_db_backup_outcomes "/app" Backup.sample_now Backup.sample_fs
              Hnow) as (_ & _ & _ & Hpresent).
  destruct (create_db_backup_outcomes "/app" Backup.sample_now Backup.blocked_fs
              Hnow) as (_ & _ & _ & Hblocked).
  destruct (create_db_backup_outcomes "/app" Backup.sample_now
              Backup.backed_up_fs Hnow) as (_ & _ & _ & Hagain).
  split; [|split; [|split]].
  - apply Habsent. vm_compute. reflexivity.
  - destruct (Hpresent Backup.sample_bytes) as (Hnew & _).
    + vm_compute. reflexivity.
    + destruct Hnew as (Hrun & _).
      * intros other H. vm_compute in H. discriminate H.
      * vm_compute. reflexivity.
      * exact Hrun.
  - destruct (Hblocked Backup.sample_bytes) as (_ & Hfails & _).
    + vm_compute. reflexivity.
    + apply (Hfails []). vm_compute. reflexivity.
  - destruct (Hagain Backup.sample_bytes) as (_ & _ & Hover).
    + vm_compute. reflexivity.
    + apply (Hover Backup.sample_bytes); vm_compute; reflexivity.
Defined.

(** * The constraints of the schema hold throughout *)

Section Consistency.

Import Logic.

Lemma max_rowid_bound (rs : list row) (r : row) :
  In r rs -> (id r <= max_rowid rs)%Z.
Proof.
  induction rs as [|r' rs IH]; intros Hin; [destruct Hin|].
  change (max_rowid (r' :: rs)) with (Z.max (id r') (max_rowid rs)).
  destruct Hin as [->|Hin]; [lia|]. specialize (IH Hin). lia.
Qed.

Lemma max_rowid_nonneg (rs : list row) : (0 <= max_rowid rs)%Z.
Proof.
  induction rs as [|r rs IH]; [reflexivity|].
  change (max_rowid (r :: rs)) with (Z.max (id r) (max_rowid rs)). lia.
Qed.

(** The rowid of the next insert lies above the counter and above every
    row of the table. *)
Lemma next_rowid_above (t : table) :
  (0 < next_rowid t)%Z /\ (seq t < next_rowid t)%Z
  /\ forall r, In r (rows t) -> (id r < next_rowid t)%Z.
Proof.
  unfold next_rowid. pose proof (max_rowid_nonneg (rows t)).
  repeat split; try lia.
  intros r Hr. apply max_rowid_bound in Hr. lia.
Qed.

Lemma NoDup_map_filter {A B : Type} (g : A -> B) (p : A -> bool) (l : list A) :
  List.NoDup (List.map g l) -> List.NoDup (List.map g (List.filter p l)).
Proof.
  induction l as [|a l IH]; cbn; [auto|].
  intros H. apply List.NoDup_cons_iff in H as [Hn Hd].
  destruct (p a); cbn; [|auto].
  apply List.NoDup_cons; [|auto].
  intros Hin. apply Hn. apply in_map_iff in Hin as (x & <- & Hx).
  apply filter_In in Hx as [Hx _]. now apply in_map.
Qed.

Lemma number_taken_false (rs : list row) (self : option Z) (n : string) (r : row) :
  number_taken rs self n = false ->
  In r rs ->
  match self with Some i => id r <> i | None => True end ->
  number (cols r) <> n.
Proof.
  unfold number_taken. intros Hnone Hr Hself Hn.
  assert (Htrue : existsb
            (fun r => String.eqb (number (cols r)) n
                      && match self with
                         | Some i => negb (id r =? i)%Z
                         | None => true
                         end) rs = true).
  { apply existsb_exists. exists r. split; [exact Hr|].
    apply andb_true_iff. split; [now apply String.eqb_eq|].
    destruct self as [i|]; [|reflexivity].
    apply negb_true_iff, Z.eqb_neq. exact Hself. }
  congruence.
Qed.

Local Abbreviation overwrite i c :=
  (fun r : row => if (id r =? i)%Z then {| id := id r; cols := c |} else r).

Lemma overwrite_ids (i : Z) (c : columns) (rs : list row) :
  List.map id (List.map (overwrite i c) rs) = List.map id rs.
Proof.
  rewrite List.map_map. apply List.map_ext. intros r.
  now destruct (id r =? i)%Z.
Qed.

Lemma overwrite_absent (i : Z) (c : columns) (rs : list row) :
  ~ In i (List.map id rs) -> List.map (overwrite i c) rs = rs.
Proof.
  induction rs as [|r rs IH]; cbn; [reflexivity|].
  intros H. destruct (id r =? i)%Z eqn:E.
  - apply Z.eqb_eq in E. destruct H. now left.
  - f_equal. apply IH. tauto.
Qed.

Lemma overwrite_numbers (i : Z) (c : columns) (rs : list row) :
  List.NoDup (List.map id rs) ->
  List.NoDup (List.map (fun r => number (cols r)) rs) ->
  (forall r, In r rs -> id r <> i -> number (cols r) <> number c) ->
  List.NoDup (List.map (fun r => number (cols r)) (List.map (overwrite i c) rs)).
Proof.
  induction rs as [|r rs IH]; cbn [List.map]; [constructor|].
  intros Hid Hnum Hother.
  apply List.NoDup_cons_iff in Hid as [Hid1 Hid2].
  apply List.NoDup_cons_iff in Hnum as [Hnum1 Hnum2].
  destruct (id r =? i)%Z eqn:E.
  - apply Z.eqb_eq in E. subst i.
    rewrite (overwrite_absent _ _ _ Hid1). apply List.NoDup_cons; [|exact Hnum2].
    cbn. intros Hin. apply in_map_iff in Hin as (r' & Hn & Hr').
    apply (Hother r'); [now right| |exact Hn].
    intros Heq. apply Hid1. rewrite <- Heq. now apply in_map.
  - apply Z.eqb_neq in E. apply List.NoDup_cons.
    + intros Hin. apply in_map_iff in Hin as (r' & Hn & Hr').
      apply in_map_iff in Hr' as (r0 & <- & Hr0).
      destruct (id r0 =? i)%Z eqn:E0; cbn in Hn.
      * apply (Hother r); [now left|exact E|now symmetry].
      * apply Hnum1. rewrite <- Hn. now apply (in_map (fun r => number (cols r))).
    + apply IH; [exact Hid2|exact Hnum2|]. intros r' Hr'. apply Hother. now right.
Qed.

Lemma sql_insert_consistent (t t' : table) (c : columns) :
  Store.consistent t -> sql_insert t c = Ok t' -> Store.consistent t'.
Proof.
  intros [Hid Hnum Hrange]. unfold sql_insert.
  destruct (number_taken (rows t) None (number c)) eqn:E; [discriminate|].
  intros H. injection H as <-.
  destruct (next_rowid_above t) as (Hpos & Hseq & Habove).
  split; unfold Store.ids, Store.numbers; cbn [rows seq].
  - rewrite List.map_app. apply NoDup_ListNoDup, NoDup_app.
    split; [now apply NoDup_ListNoDup|]. split.
    + intros i Hi Hnew. apply list_elem_of_In in Hi, Hnew.
      destruct Hnew as [<-|[]]. apply in_map_iff in Hi as (r & Hr1 & Hr2).
      apply Habove in Hr2. cbn in Hr1. lia.
    + apply NoDup_ListNoDup. cbn. constructor; [intros []|constructor].
  - rewrite List.map_app. apply NoDup_ListNoDup, NoDup_app.
    split; [now apply NoDup_ListNoDup|]. split.
    + intros n Hn Hnew. apply list_elem_of_In in Hn, Hnew.
      destruct Hnew as [<-|[]]. apply in_map_iff in Hn as (r & Hr1 & Hr2).
      now apply (number_taken_false _ _ _ r E Hr2).
    + apply NoDup_ListNoDup. cbn. constructor; [intros []|constructor].
  - intros r Hr. apply in_app_or in Hr as [Hr|[<-|[]]].
    + apply Hrange in Hr. lia.
    + cbn. lia.
Qed.

Lemma sql_insert_or_ignore_consistent (t : table) (c : columns) :
  Store.consistent t -> Store.consistent (sql_insert_or_ignore t c).
Proof.
  intros Ht. unfold sql_insert_or_ignore.
  destruct (number_taken (rows t) None (number c)) eqn:E.
  - destruct Ht as [Hid Hnum Hrange].
    destruct (next_rowid_above t) as (Hpos & Hseq & Habove).
    split; [exact Hid|exact Hnum|].
    intros r Hr. cbn [rows seq] in *. apply Hrange in Hr. lia.
  - apply (sql_insert_consistent t _ c Ht). unfold sql_insert. now rewrite E.
Qed.

Lemma sql_update_consistent (t t' : table) (i : Z) (c : columns) :
  Store.consistent t -> sql_update t i c = Ok t' -> Store.consistent t'.
Proof.
  intros [Hid Hnum Hrange]. unfold sql_update.
  destruct (existsb _ (rows t)); [|intros H; injection H as <-; now split].
  destruct (number_taken (rows t) (Some i) (number c)) eqn:E; [discriminate|].
  intros H. injection H as <-.
  split; unfold Store.ids, Store.numbers; cbn [rows seq].
  - now rewrite overwrite_ids.
  - apply overwrite_numbers; [exact Hid|exact Hnum|].
    intros r Hr Hne. now apply (number_taken_false _ _ _ r E Hr).
  - intros r Hr. apply in_map_iff in Hr as (r0 & <- & Hr0).
    apply Hrange in Hr0. now destruct (id r0 =? i)%Z.
Qed.

Lemma filter_consistent (t : table) (p : row -> bool) :
  Store.consistent t ->
  Store.consistent {| rows := List.filter p (rows t); seq := seq t |}.
Proof.
  intros [Hid Hnum Hrange].
  split; unfold Store.ids, Store.numbers; cbn [rows seq].
  - now apply NoDup_map_filter.
  - now apply (NoDup_map_filter (fun r => number (cols r))).
  - intros r Hr. apply filter_In in Hr as [Hr _]. now apply Hrange.
Qed.

(** X1: the constraints of the schema survive every operation on one
    record: if no id and no number occurs twice and every id was handed
    out by the counter, the same holds after [add_camper] and
    [update_camper] went through and after [delete_camper] and
    [delete_camper_by_number]. *)
Theorem record_operations_keep_consistency (t : table) :
  Store.consistent t ->
  (forall user t', add_camper t user = Ok t' -> Store.consistent t')
  /\ (forall camper_id user t',
        update_camper t camper_id user = Ok t' -> Store.consistent t')
  /\ (forall camper_id, Store.consistent (delete_camper t camper_id))
  /\ (forall n, Store.consistent (delete_camper_by_number t n)).
Proof.
  intros Ht. split; [|split; [|split]].
  - intros user t' H. exact (sql_insert_consistent t t' _ Ht H).
  - intros i user t' H. exact (sql_update_consistent t t' i _ Ht H).
  - intros i. exact (filter_consistent t _ Ht).
  - intros n. exact (filter_consistent t _ Ht).
Qed.

End Consistency.

Lemma record_operations_keep_consistency_witness :
  Store.consistent Logic.ann_table
  /\ Store.consistent (Logic.delete_camper Logic.init_db 1).
Proof.
  assert (H0 : Store.consistent Logic.init_db).
  { split; cbn; [constructor|constructor|intros r []]. }
  destruct (record_operations_keep_consistency Logic.init_db H0)
    as (Hadd & _ & Hdel & _).
  split; [|apply Hdel].
  apply (Hadd Logic.ann). reflexivity.
Defined.

Section BatchConsistency.

Import Logic.

Variable float_of_str : string -> option Q.

Local Abbreviation save_item := (Logic.save_item float_of_str).
Local Abbreviation save_all_campers := (Logic.save_all_campers float_of_str).
Local Abbreviation ReconcileAll := (Logic.ReconcileAll float_of_str).
Local Abbreviation bound := (Logic.bound float_of_str).

Lemma save_item_consistent (t t' : table) (it : item) :
  Store.consistent t -> save_item t it = Ok t' -> Store.consistent t'.
Proof.
  intros Ht. unfold Logic.save_item.
  destruct (truthy_id it) as [i|]; destruct (bound it) as [c|e]; cbn [bind];
    try discriminate.
  - apply (sql_update_consistent _ _ _ _ Ht).
  - intros H. injection H as <-. now apply sql_insert_or_ignore_consistent.
Qed.

(** X2: the constraints of the schema survive every batch: whatever the
    items are, and whether the batch goes through or is left by an
    exception, no id and no number occurs twice in the table that is
    committed after [save_all_campers]. *)
Theorem ReconcileAll_keeps_consistency (t : table) (items : list item) :
  Store.consistent t -> Store.consistent (ReconcileAll t items).
Proof.
  intros Ht. unfold Logic.ReconcileAll.
  assert (Hall : forall t0 t', Store.consistent t0 ->
            save_all_campers t0 items = Ok t' -> Store.consistent t').
  { clear t Ht. induction items as [|it rest IH]; intros t0 t' H0; cbn.
    - intros H. now injection H as <-.
    - destruct (save_item t0 it) as [t1|e] eqn:E; cbn [bind]; [|discriminate].
      apply IH. exact (save_item_consistent _ _ _ H0 E). }
  destruct (save_all_campers t items) as [t'|e] eqn:E; cbn [committed].
  - exact (Hall t t' Ht E).
  - exact Ht.
Qed.

End BatchConsistency.

Lemma ReconcileAll_keeps_consistency_witness :
  Store.consistent
    (Logic.ReconcileAll Logic.no_float Logic.ann_table
       [Logic.grid_item None "Bob" "Ray" "555-9999" 3;
        Logic.grid_item (Some 1%Z) "Ann" "Lee" "555-0000" 5;
        Logic.grid_item None "Dup" "Ray" "555-0000" 1]).
Proof.
  apply ReconcileAll_keeps_consistency.
  split; cbn.
  - constructor; [intros []|constructor].
  - constructor; [intros []|constructor].
  - intros r [<-|[]]. vm_compute. split; [reflexivity|discriminate].
Defined.

(** * Deleting and overwriting a record *)

Section DeleteAndUpdate.

Import Logic.

(** X3: AUTOINCREMENT hands out no id twice: the record that is added
    after a record was deleted gets an id above every id the table held
    before the deletion, the deleted one included. *)
Theorem deleted_id_is_not_reused (t t' : table) (camper_id : Z)
    (user : Models.UserData) :
  Store.consistent t ->
  add_camper (delete_camper t camper_id) user = Ok t' ->
  exists r,
    rows t' = rows (delete_camper t camper_id) ++ [r]
    /\ cols r = columns_of_user user
    /\ forall r0, In r0 (rows t) -> (id r0 < id r)%Z.
Proof.
  intros [_ _ Hrange]. unfold add_camper, sql_insert.
  destruct (number_taken _ None _); [discriminate|].
  intros H. injection H as <-. eexists. split; [reflexivity|].
  split; [reflexivity|].
  intros r0 Hr0. apply Hrange in Hr0.
  destruct (next_rowid_above (delete_camper t camper_id)) as (_ & Hseq & _).
  cbn [id seq delete_camper] in *. lia.
Qed.

Lemma same_key_same_row {A B : Type} (g : A -> B) (l : list A) (a b : A) :
  List.NoDup (List.map g l) -> In a l -> In b l -> g a = g b -> a = b.
Proof.
  induction l as [|x l IH]; cbn; [tauto|].
  intros H Ha Hb Hg. apply List.NoDup_cons_iff in H as [Hx Hl].
  destruct Ha as [->|Ha], Hb as [->|Hb]; auto.
  - destruct Hx. rewrite Hg. now apply in_map.
  - destruct Hx. rewrite <- Hg. now apply in_map.
Qed.

Lemma filter_one_out (rs : list row) (r : row) :
  List.NoDup (List.map id rs) -> In r rs ->
  length (List.filter (fun r' => negb (id r' =? id r)%Z) rs) + 1 = length rs.
Proof.
  induction rs as [|x rs IH]; cbn; [tauto|].
  intros H Hr. apply List.NoDup_cons_iff in H as [Hx Hrs].
  destruct (id x =? id r)%Z eqn:E; cbn.
  - apply Z.eqb_eq in E.
    assert (Hall : List.filter (fun r' => negb (id r' =? id r)%Z) rs = rs).
    { apply forallb_filter_id, forallb_forall. intros y Hy.
      apply negb_true_iff, Z.eqb_neq. intros Heq.
      apply Hx. rewrite E, <- Heq. now apply in_map. }
    rewrite Hall. lia.
  - destruct Hr as [->|Hr]; [rewrite Z.eqb_refl in E; discriminate|].
    rewrite <- (IH Hrs Hr). lia.
Qed.

Lemma delete_camper_by_number_by_id (t : table) (r : row) :
  Store.consistent t ->
  In r (rows t) ->
  delete_camper_by_number t (number (cols r)) = delete_camper t (id r).
Proof.
  intros [Hid Hnum _] Hr.
  unfold delete_camper_by_number, delete_camper. f_equal.
  apply filter_ext_in. intros r' Hr'. f_equal.
  destruct (id r' =? id r)%Z eqn:E.
  - apply Z.eqb_eq in E.
    rewrite (same_key_same_row id (rows t) r' r Hid Hr' Hr E).
    apply String.eqb_refl.
  - apply String.eqb_neq. intros Hn. apply Z.eqb_neq in E. apply E.
    now rewrite (same_key_same_row (fun r => number (cols r)) (rows t) r' r
                   Hnum Hr' Hr Hn).
Qed.

(** X4: on a stored record the two ways to delete agree: deleting by
    its number removes the row of its id and no other, so the table
    loses exactly one row. *)
Theorem delete_by_number_removes_one_row (t : table) (r : row) :
  Store.consistent t ->
  In r (rows t) ->
  delete_camper_by_number t (number (cols r)) = delete_camper t (id r)
  /\ ~ In r (rows (delete_camper t (id r)))
  /\ length (rows (delete_camper t (id r))) + 1 = length (rows t).
Proof.
  intros Ht Hr. split; [|split].
  - now apply delete_camper_by_number_by_id.
  - cbn. intros H. apply filter_In in H as [_ H].
    rewrite Z.eqb_refl in H. discriminate.
  - cbn. apply filter_one_out; [apply Ht|exact Hr].
Qed.

(** X5: deleting by number frees the number: whatever the table holds,
    after [delete_camper_by_number] no row carries the number, every
    other row is still there, and [add_camper] with this number goes
    through. *)
Theorem delete_by_number_frees_the_number (t : table) (user : Models.UserData) :
  let t1 := delete_camper_by_number t (Models.number user) in
  (forall r, In r (rows t1)
             <-> In r (rows t) /\ number (cols r) <> Models.number user)
  /\ add_camper t1 user
     = Ok {| rows := rows t1 ++ [{| id := next_rowid t1;
                                    cols := columns_of_user user |}];
             seq := next_rowid t1 |}.
Proof.
  intros t1.
  assert (Hrows : forall r, In r (rows t1)
             <-> In r (rows t) /\ number (cols r) <> Models.number user).
  { intros r. subst t1. cbn. rewrite filter_In, negb_true_iff.
    now rewrite String.eqb_neq. }
  split; [exact Hrows|].
  unfold add_camper, sql_insert.
  destruct (number_taken (rows t1) None _) eqn:E; [|reflexivity].
  unfold number_taken in E. apply existsb_exists in E as (r & Hr & H).
  apply andb_true_iff in H as [H _]. apply String.eqb_eq in H.
  apply Hrows in Hr as [_ Hr]. now destruct Hr.
Qed.


End DeleteAndUpdate.

Lemma deleted_id_is_not_reused_witness :
  exists r,
    Logic.rows (Logic.committed Logic.init_db
                  (Logic.add_camper (Logic.delete_camper Logic.ann_table 1) Logic.ann))
    = Logic.rows (Logic.delete_camper Logic.ann_table 1) ++ [r]
    /\ Logic.cols r = Logic.columns_of_user Logic.ann
    /\ forall r0, In r0 (Logic.rows Logic.ann_table) -> (Logic.id r0 < Logic.id r)%Z.
Proof.
  apply (deleted_id_is_not_reused Logic.ann_table _ 1 Logic.ann).
  - split; cbn.
    + constructor; [intros []|constructor].
    + constructor; [intros []|constructor].
    + intros r [<-|[]]. vm_compute. split; [reflexivity|discriminate].
  - reflexivity.
Defined.

Lemma delete_by_number_removes_one_row_witness :
  Logic.delete_camper_by_number Logic.ann_table "555-1234"
  = Logic.delete_camper Logic.ann_table 1
  /\ ~ In {| Logic.id := 1; Logic.cols := Logic.columns_of_user Logic.ann |}
          (Logic.rows (Logic.delete_camper Logic.ann_table 1))
  /\ length (Logic.rows (Logic.delete_camper Logic.ann_table 1)) + 1
     = length (Logic.rows Logic.ann_table).
Proof.
  apply (delete_by_number_removes_one_row Logic.ann_table
           {| Logic.id := 1; Logic.cols := Logic.columns_of_user Logic.ann |}).
  - split; cbn.
    + constructor; [intros []|constructor].
    + constructor; [intros []|constructor].
    + intros r [<-|[]]. vm_compute. split; [reflexivity|discriminate].
  - left. reflexivity.
Defined.


(** * What a batch does to the table *)

Section Batches.

Import Logic.

Variable float_of_str : string -> option Q.

Local Abbreviation save_item := (Logic.save_item float_of_str).
Local Abbreviation save_all_campers := (Logic.save_all_campers float_of_str).
Local Abbreviation ReconcileAll := (Logic.ReconcileAll float_of_str).
Local Abbreviation bound := (Logic.bound float_of_str).
Local Abbreviation float := (Logic.float float_of_str).

(** X7: an item that raises takes the whole batch with it: when the
    items before it went through and the item itself raises, the batch
    raises the same exception and nothing of it is committed, the
    changes of the earlier items included. *)
Theorem failed_item_discards_the_batch (t t1 : table)
    (before after : list item) (it : item) (e : exn) :
  save_all_campers t before = Ok t1 ->
  save_item t1 it = Raise e ->
  save_all_campers t (before ++ it :: after) = Raise e
  /\ ReconcileAll t (before ++ it :: after) = t.
Proof.
  intros Hbefore Hit.
  assert (Hrun : save_all_campers t (before ++ it :: after) = Raise e).
  { rewrite save_all_campers_app, Hbefore. cbn [bind Logic.save_all_campers].
    now rewrite Hit. }
  split; [exact Hrun|]. unfold Logic.ReconcileAll. now rewrite Hrun.
Qed.

Lemma bound_raises (it : item) (e : exn) :
  bound it = Raise e ->
  e = ValueError
  /\ exists s, item_rating it = Some (PyStr s) /\ float_of_str s = None.
Proof.
  unfold Logic.bound, Logic.float.
  destruct (item_rating it) as [[z|q|s]|]; cbn [bind]; try discriminate.
  destruct (float_of_str s) eqn:Hs; cbn [bind]; [discriminate|].
  intros H. injection H as <-. eauto.
Qed.

Lemma bound_number (it : item) (c : columns) :
  bound it = Ok c -> number c = default "" (item_number it).
Proof.
  unfold Logic.bound. destruct (float (item_rating it)); cbn [bind]; [|discriminate].
  intros H. now injection H as <-.
Qed.

Lemma sql_update_raises (t : table) (i : Z) (c : columns) (e : exn) :
  sql_update t i c = Raise e ->
  e = IntegrityError
  /\ In i (Store.ids t)
  /\ exists r, In r (rows t) /\ id r <> i /\ number (cols r) = number c.
Proof.
  unfold sql_update.
  destruct (existsb (fun r => (id r =? i)%Z) (rows t)) eqn:Hex; [|discriminate].
  destruct (number_taken (rows t) (Some i) (number c)) eqn:Hn; [|discriminate].
  intros H. injection H as <-. split; [reflexivity|].
  apply existsb_exists in Hex as (r0 & Hr0 & H0). apply Z.eqb_eq in H0.
  apply existsb_exists in Hn as (r & Hr & H).
  apply andb_true_iff in H as [H1 H2].
  apply String.eqb_eq in H1. apply negb_true_iff, Z.eqb_neq in H2.
  split; [|eauto]. unfold Store.ids. rewrite <- H0. now apply in_map.
Qed.

(** X8: where the errors of an item come from.  IntegrityError comes
    from an update alone, when the row of the id is there and another
    row holds the number: an item without an id never raises it, and an
    update with a float for its rating raises it whenever the row of
    the id is there and another row holds the number.  And an item
    whose rating is a text [float] does not read raises ValueError on
    either path, whatever the table holds. *)
Theorem save_item_errors (t : table) (it : item) :
  (save_item t it = Raise IntegrityError ->
   exists i r, truthy_id it = Some i
               /\ In i (Store.ids t)
               /\ In r (rows t) /\ id r <> i
               /\ number (cols r) = default "" (item_number it))
  /\ (forall i q r,
        truthy_id it = Some i ->
        item_rating it = Some (PyFloat q) ->
        In i (Store.ids t) ->
        In r (rows t) -> id r <> i ->
        number (cols r) = default "" (item_number it) ->
        save_item t it = Raise IntegrityError)
  /\ (forall s,
        item_rating it = Some (PyStr s) -> float_of_str s = None ->
        save_item t it = Raise ValueError).
Proof.
  split; [|split].
  - unfold Logic.save_item.
    destruct (bound it) as [c|e] eqn:Hbound.
    + destruct (truthy_id it) as [i|]; cbn [bind]; [|discriminate].
      intros H.
      apply sql_update_raises in H as (_ & Hin & r & Hr & Hne & Hn).
      exists i, r. rewrite <- (bound_number it c Hbound). auto.
    + apply bound_raises in Hbound as [-> _].
      destruct (truthy_id it); cbn [bind]; discriminate.
  - intros i q r Hid Hrating Hin Hr Hne Hnumber.
    unfold Logic.save_item, Logic.bound, Logic.float.
    rewrite Hid, Hrating. cbn [bind]. unfold sql_update. cbn [number].
    assert (Hthere : existsb (fun r0 => (id r0 =? i)%Z) (rows t) = true).
    { apply in_map_iff in Hin as (r0 & Hi & Hr0).
      apply existsb_exists. exists r0. split; [exact Hr0|].
      now apply Z.eqb_eq. }
    assert (Htaken : number_taken (rows t) (Some i)
                       (default "" (item_number it)) = true).
    { apply existsb_exists. exists r. split; [exact Hr|].
      apply andb_true_iff. split; [now apply String.eqb_eq|].
      now apply negb_true_iff, Z.eqb_neq. }
    now rewrite Hthere, Htaken.
  - intros s Hrating Hs.
    assert (Hbound : bound it = Raise ValueError).
    { unfold Logic.bound, Logic.float. now rewrite Hrating, Hs. }
    unfold Logic.save_item. rewrite Hbound.
    now destruct (truthy_id it).
Qed.

End Batches.

Lemma failed_item_discards_the_batch_witness :
  let items := [Logic.grid_item None "Ann" "Lee" "555-1234" 4]
               ++ Dict.unrated_item None "555-0000"
                  :: [Logic.grid_item None "Bob" "Ray" "555-9999" 3] in
  Logic.save_all_campers Logic.no_float Logic.init_db items = Raise ValueError
  /\ Logic.ReconcileAll Logic.no_float Logic.init_db items = Logic.init_db.
Proof.
  apply (failed_item_discards_the_batch Logic.no_float Logic.init_db
           (Logic.sql_insert_or_ignore Logic.init_db
              (Logic.grid_columns "Ann" "Lee" "555-1234" 4))).
  - reflexivity.
  - reflexivity.
Defined.

Lemma save_item_errors_witness :
  (exists i r,
     Logic.truthy_id (Logic.grid_item (Some 1%Z) "Ann" "Lee" "555-9999" 5)
     = Some i
     /\ In i (Store.ids Store.two_campers)
     /\ In r (Logic.rows Store.two_campers) /\ Logic.id r <> i
     /\ Logic.number (Logic.cols r) = "555-9999")
  /\ Logic.save_item Logic.no_float Store.two_campers
       (Store.rated_item 1 "555-9999")
     = Raise IntegrityError
  /\ Logic.save_item Logic.no_float Logic.ann_table
       (Dict.unrated_item None "555-0000")
     = Raise ValueError.
Proof.
  destruct (save_item_errors Logic.no_float Store.two_campers
              (Logic.grid_item (Some 1%Z) "Ann" "Lee" "555-9999" 5))
    as (Hintegrity & _).
  destruct (save_item_errors Logic.no_float Store.two_campers
              (Store.rated_item 1 "555-9999")) as (_ & Hcollides & _).
  destruct (save_item_errors Logic.no_float Logic.ann_table
              (Dict.unrated_item None "555-0000")) as (_ & _ & Hvalue).
  split; [|split].
  - apply Hintegrity. reflexivity.
  - apply (Hcollides 1%Z (9 # 2)
             {| Logic.id := 2;
                Logic.cols := Logic.grid_columns "Bob" "Ray" "555-9999" 3 |}).
    + reflexivity.
    + reflexivity.
    + vm_compute. left. reflexivity.
    + vm_compute. right. left. reflexivity.
    + discriminate.
    + reflexivity.
  - apply (Hvalue "good"); reflexivity.
Defined.

Section BatchRows.

Import Logic.

Variable float_of_str : string -> option Q.

Local Abbreviation save_item := (Logic.save_item float_of_str).
Local Abbreviation save_all_campers := (Logic.save_all_campers float_of_str).
Local Abbreviation ReconcileAll := (Logic.ReconcileAll float_of_str).
Local Abbreviation bound := (Logic.bound float_of_str).

Lemma save_item_rows (t t' : table) (it : item) :
  save_item t it = Ok t' ->
  exists new,
    Store.ids t' = Store.ids t ++ new
    /\ length new <= length (Store.without_id [it])
    /\ (seq t <= seq t')%Z.
Proof.
  unfold Logic.save_item, Store.without_id. cbn [List.filter].
  destruct (truthy_id it) as [i|]; destruct (bound it) as [c|e]; cbn [bind];
    try discriminate.
  - intros H. exists []. rewrite app_nil_r.
    unfold sql_update in H.
    destruct (existsb _ (rows t)).
    + destruct (number_taken _ _ _); [discriminate|]. injection H as <-.
      unfold Store.ids. cbn [rows seq]. rewrite overwrite_ids.
      split; [reflexivity|]. cbn. lia.
    + injection H as <-. split; [reflexivity|]. cbn. lia.
  - intros H. injection H as <-. unfold sql_insert_or_ignore.
    destruct (next_rowid_above t) as (_ & Hseq & _).
    destruct (number_taken _ _ _); unfold Store.ids; cbn [rows seq].
    + exists []. rewrite app_nil_r. split; [reflexivity|]. cbn. lia.
    + exists [next_rowid t]. rewrite List.map_app. split; [reflexivity|].
      cbn. lia.
Qed.

(** X9: a batch deletes nothing and renumbers nothing: when it goes
    through, the ids of the table are the ids it had, in their order,
    followed by the ids of the rows that were added, at most one for
    every item without an id; the counter of the ids never goes back. *)
Theorem save_all_campers_keeps_the_rows (items : list item) :
  forall t t' : table,
    save_all_campers t items = Ok t' ->
    exists new,
      Store.ids t' = Store.ids t ++ new
      /\ length new <= length (Store.without_id items)
      /\ (seq t <= seq t')%Z.
Proof.
  induction items as [|it rest IH]; intros t t'; cbn [Logic.save_all_campers].
  - intros H. injection H as <-. exists []. rewrite app_nil_r.
    split; [reflexivity|]. cbn. lia.
  - destruct (save_item t it) as [t1|e] eqn:E; cbn [bind]; [|discriminate].
    intros H. apply save_item_rows in E as (new1 & Hids1 & Hlen1 & Hseq1).
    apply IH in H as (new2 & Hids2 & Hlen2 & Hseq2).
    exists (new1 ++ new2). rewrite Hids2, Hids1, <- app_assoc.
    split; [reflexivity|]. split; [|lia].
    rewrite length_app. unfold Store.without_id in *. cbn [List.filter] in *.
    destruct (truthy_id it); cbn [length] in *; lia.
Qed.


(** X11: the dict of a camper, saved as a batch of one, stores the rows
    [add_camper] stores for the camper.  With a number that is free the
    two calls agree altogether; with a number that is taken the batch
    keeps silent where [add_camper] raises, and neither stores
    anything. *)
Theorem to_dict_batch_stores_as_add_camper (t : table) (user : Models.UserData) :
  rows (ReconcileAll t [Dict.to_dict user])
  = rows (committed t (add_camper t user))
  /\ (number_taken (rows t) None (Models.number user) = false ->
      save_all_campers t [Dict.to_dict user] = add_camper t user)
  /\ (number_taken (rows t) None (Models.number user) = true ->
      add_camper t user = Raise IntegrityError
      /\ exists t', save_all_campers t [Dict.to_dict user] = Ok t'
                    /\ rows t' = rows t).
Proof.
  assert (Hrun : save_all_campers t [Dict.to_dict user]
                 = Ok (sql_insert_or_ignore t (columns_of_user user)))
    by reflexivity.
  unfold Logic.ReconcileAll. rewrite Hrun. cbn [committed].
  unfold add_camper, sql_insert, sql_insert_or_ignore.
  change (number (columns_of_user user)) with (Models.number user).
  destruct (number_taken (rows t) None (Models.number user)); cbn [committed rows].
  - split; [reflexivity|]. split; [discriminate|]. intros _.
    split; [reflexivity|]. eexists. split; reflexivity.
  - split; [reflexivity|]. split; [reflexivity|discriminate].
Qed.

End BatchRows.

Lemma save_all_campers_keeps_the_rows_witness :
  let items := [Logic.grid_item None "Bob" "Ray" "555-9999" 3;
                Logic.grid_item (Some 1%Z) "Ann" "Lee" "555-0000" 5] in
  exists new,
    Store.ids (Logic.ReconcileAll Logic.no_float Logic.ann_table items)
    = Store.ids Logic.ann_table ++ new
    /\ length new <= length (Store.without_id items)
    /\ (Logic.seq Logic.ann_table
        <= Logic.seq (Logic.ReconcileAll Logic.no_float Logic.ann_table items))%Z.
Proof.
  intros items.
  apply (save_all_campers_keeps_the_rows Logic.no_float items Logic.ann_table).
  reflexivity.
Defined.


Lemma to_dict_batch_stores_as_add_camper_witness :
  Logic.save_all_campers Logic.no_float Logic.init_db [Dict.to_dict Logic.ann]
  = Logic.add_camper Logic.init_db Logic.ann
  /\ Logic.add_camper Logic.ann_table Logic.ann = Raise IntegrityError.
Proof.
  destruct (to_dict_batch_stores_as_add_camper Logic.no_float Logic.init_db Logic.ann)
    as (_ & Hfree & _).
  destruct (to_dict_batch_stores_as_add_camper Logic.no_float Logic.ann_table Logic.ann)
    as (_ & _ & Htaken).
  split; [apply Hfree; reflexivity|].
  apply Htaken. reflexivity.
Defined.

(** * The camper of the form and its validation *)

Section Validation.

Import Models.

Lemma is_valid_phone_input_Forall (number : string) :
  is_valid_phone_input number = true
  <-> Forall (fun char => In char VALID_PHONE_CHARS) (list_ascii_of_string number).
Proof.
  induction number as [|char rest IH]; cbn [is_valid_phone_input list_ascii_of_string].
  - split; [constructor|reflexivity].
  - rewrite andb_true_iff, IH, Forall_cons.
    destruct (decide (char ∈ VALID_PHONE_CHARS)) as [Hin|Hout].
    + apply list_elem_of_In in Hin. tauto.
    + split; [intros [H _]; discriminate|].
      intros [H _]. apply list_elem_of_In in H. contradiction.
Qed.

Lemma truthy_not_empty (s : string) : Py.truthy s = true <-> s <> "".
Proof. destruct s; cbn; split; try congruence; auto. Qed.

Lemma Qlt_bool_false (a b : Q) : Qlt_bool a b = false <-> (b <= a)%Q.
Proof.
  unfold Qlt_bool. rewrite negb_false_iff. apply Qle_bool_iff.
Qed.

(** What suffices for [is_valid]. *)
Lemma is_valid_intro (self : UserData) :
  Py.truthy (name self) = true ->
  Py.truthy (surname self) = true ->
  is_valid_phone_input (number self) = true ->
  String.length (number self) <= 21 ->
  (0 <= rating self)%Q ->
  (rating self <= 5)%Q ->
  is_valid self = true.
Proof.
  intros Hname Hsurname Hphone Hlen H0 H5.
  apply Qlt_bool_false in H0, H5. apply Nat.ltb_ge in Hlen.
  unfold is_valid, is_valid_box.
  now rewrite Hname, Hsurname, Hphone, Hlen, H0, H5.
Qed.

(** The comparison [a < b] of the code turns out false. *)
Lemma Qlt_bool_not (a b : Q) : Qlt_bool a b = false <-> ~ (a < b)%Q.
Proof.
  rewrite Qlt_bool_false. split; [apply Qle_not_lt|apply Qnot_lt_le].
Qed.

(** X12: what [is_valid] accepts: exactly the campers with a name, a
    surname, a number of at most 21 characters that are all digits or
    one of the characters of [-+ ()], and a rating for which neither
    comparison of the code holds: it is not below 0 and not above 5.
    The email, the note and the status are not looked at, and the
    number may be empty. *)
Theorem is_valid_accepts (self : UserData) :
  is_valid self = true
  <-> name self <> ""
      /\ surname self <> ""
      /\ Forall (fun char => In char VALID_PHONE_CHARS)
           (list_ascii_of_string (number self))
      /\ String.length (number self) <= 21
      /\ ~ (rating self < 0)%Q /\ ~ (5 < rating self)%Q.
Proof.
  rewrite <- !truthy_not_empty, <- is_valid_phone_input_Forall,
    <- !Qlt_bool_not.
  unfold is_valid, is_valid_box.
  destruct (Py.truthy (name self)); cbn [negb fst];
    [|split; [discriminate|intros [H _]; discriminate]].
  destruct (Py.truthy (surname self)); cbn [negb fst];
    [|split; [discriminate|intros (_ & H & _); discriminate]].
  destruct (is_valid_phone_input (number self)); cbn [negb fst];
    [|split; [discriminate|intros (_ & _ & H & _); discriminate]].
  destruct (21 <? String.length (number self))%nat eqn:Hlen; cbn [fst].
  - apply Nat.ltb_lt in Hlen. split; [discriminate|]. intros (_ & _ & _ & H & _). lia.
  - apply Nat.ltb_ge in Hlen.
    destruct (Qlt_bool (rating self) 0); cbn [orb fst];
      [split; [discriminate|intros (_ & _ & _ & _ & H & _); discriminate]|].
    destruct (Qlt_bool 5 (rating self)); cbn [fst];
      [split; [discriminate|intros (_ & _ & _ & _ & _ & H); discriminate]|].
    tauto.
Qed.

Lemma lstrip_blank (s : string) :
  Forall (fun c => Py.char_isspace c = true) (list_ascii_of_string s) ->
  Py.lstrip s = "".
Proof.
  induction s as [|c s IH]; cbn [Py.lstrip list_ascii_of_string]; [reflexivity|].
  intros H. apply Forall_cons in H as [Hc Hs]. rewrite Hc. now apply IH.
Qed.

Lemma strip_blank (s : string) :
  Forall (fun c => Py.char_isspace c = true) (list_ascii_of_string s) ->
  Py.strip s = "".
Proof. intros H. unfold Py.strip. now rewrite (lstrip_blank s H). Qed.

(** X13: white space is no name: a form whose name is empty or made of
    white space only is rejected with the box [Missing Name], whatever
    the other entries are; with a name, a surname of white space only is
    rejected with the box [Missing Surname]. *)
Theorem blank_names_are_rejected (name number surname note : string)
    (rating : Q) (email status : string) :
  let user := UserData_init name number surname note rating email status in
  (Forall (fun c => Py.char_isspace c = true) (list_ascii_of_string name) ->
   is_valid_box user = (false, Some ("Missing Name", "Please enter a name.")))
  /\ (Py.strip name <> "" ->
      Forall (fun c => Py.char_isspace c = true) (list_ascii_of_string surname) ->
      is_valid_box user
      = (false, Some ("Missing Surname", "Please enter a surname."))).
Proof.
  intros user. split.
  - intros Hblank. unfold is_valid_box, user, UserData_init. cbn [Models.name].
    now rewrite (strip_blank name Hblank).
  - intros Hname Hblank. unfold is_valid_box, user, UserData_init.
    cbn [Models.name Models.surname].
    apply truthy_not_empty in Hname. rewrite Hname. cbn [negb].
    now rewrite (strip_blank surname Hblank).
Qed.

Lemma rstrip_idempotent (s : string) : Py.rstrip (Py.rstrip s) = Py.rstrip s.
Proof.
  induction s as [|c s IH]; [reflexivity|].
  cbn [Py.rstrip]. destruct (Py.rstrip s) as [|d r] eqn:E.
  - destruct (Py.char_isspace c) eqn:Hc; [reflexivity|].
    cbn [Py.rstrip]. now rewrite Hc.
  - change (Py.rstrip (String c (String d r)))
      with (match Py.rstrip (String d r) with
            | EmptyString =>
                if Py.char_isspace c then EmptyString else String c EmptyString
            | r' => String c r'
            end).
    now rewrite IH.
Qed.

(** A string [lstrip] leaves alone: it does not begin with white
    space. *)
Lemma lstrip_head (s : string) :
  match Py.lstrip s with
  | EmptyString => True
  | String c _ => Py.char_isspace c = false
  end.
Proof.
  induction s as [|c s IH]; cbn [Py.lstrip]; [exact I|].
  destruct (Py.char_isspace c) eqn:Hc; [exact IH|exact Hc].
Qed.

Lemma lstrip_rstrip (s : string) :
  match s with
  | EmptyString => True
  | String c _ => Py.char_isspace c = false
  end ->
  Py.lstrip (Py.rstrip s) = Py.rstrip s.
Proof.
  destruct s as [|c s]; [reflexivity|]. intros Hc.
  cbn [Py.rstrip]. destruct (Py.rstrip s) as [|d r].
  - rewrite Hc. cbn [Py.lstrip]. now rewrite Hc.
  - cbn [Py.lstrip]. now rewrite Hc.
Qed.

Lemma strip_idempotent (s : string) : Py.strip (Py.strip s) = Py.strip s.
Proof.
  unfold Py.strip. rewrite (lstrip_rstrip (Py.lstrip s) (lstrip_head s)).
  apply rstrip_idempotent.
Qed.

(** X14: a camper is built once and for all: building a [UserData] from
    the attributes of a [UserData] gives the same object again, since
    stripping a stripped text changes nothing and the number and the
    rating are taken as they are. *)
Theorem UserData_init_idempotent (name number surname note : string)
    (rating : Q) (email status : string) :
  let user := UserData_init name number surname note rating email status in
  UserData_init (Models.name user) (Models.number user) (Models.surname user)
    (Models.note user) (Models.rating user) (Models.email user)
    (Models.status user)
  = user.
Proof.
  intros user. unfold user, UserData_init.
  cbn [Models.name Models.number Models.surname Models.note Models.rating
       Models.email Models.status].
  now rewrite !strip_idempotent.
Qed.

End Validation.

Lemma blank_names_are_rejected_witness :
  Models.is_valid_box
    (Models.UserData_init "   " "555-1234" "Lee" "" (7 # 2) "" "yellow")
  = (false, Some ("Missing Name", "Please enter a name."))
  /\ Models.is_valid_box
       (Models.UserData_init "Ann" "555-1234" "  " "" (7 # 2) "" "yellow")
     = (false, Some ("Missing Surname", "Please enter a surname.")).
Proof.
  destruct (blank_names_are_rejected "   " "555-1234" "Lee" "" (7 # 2) "" "yellow")
    as [Hname _].
  destruct (blank_names_are_rejected "Ann" "555-1234" "  " "" (7 # 2) "" "yellow")
    as [_ Hsurname].
  split.
  - apply Hname. repeat constructor.
  - apply Hsurname; [discriminate|repeat constructor].
Defined.

(** * The filter of the number entries *)

Section NumberEntry.

Import Entry.

(** An insertion that the filter lets through brings in one phone
    character. *)
Lemma validate_phone_input_insert (text : string) :
  validate_phone_input "1" text = true ->
  Models.is_valid_phone_input text = true.
Proof.
  unfold validate_phone_input. cbn [String.eqb Ascii.eqb Bool.eqb].
  destruct text as [|c [|d rest]]; cbn; [discriminate| |discriminate].
  now rewrite andb_true_r.
Qed.

(** X15: what the filter of the number entries lets through: every
    deletion, and otherwise exactly the texts of one character that
    [is_valid_phone_input] accepts.  A text of several characters that
    is inserted at once is refused even when all its characters are
    phone characters, and so is the empty text. *)
Theorem validate_phone_input_accepts (action char : string) :
  validate_phone_input action char = true
  <-> action = "0"
      \/ (String.length char = 1 /\ Models.is_valid_phone_input char = true).
Proof.
  unfold validate_phone_input.
  destruct (String.eqb action "0") eqn:E.
  - apply String.eqb_eq in E. tauto.
  - apply String.eqb_neq in E.
    destruct char as [|c [|d rest]]; cbn.
    + split; [discriminate|]. intros [H|[H _]]; [contradiction|discriminate].
    + rewrite andb_true_r. split; [now right|].
      intros [H|[_ H]]; [contradiction|exact H].
    + split; [discriminate|]. intros [H|[H _]]; [contradiction|discriminate].
Qed.

Lemma is_valid_phone_input_app (s1 s2 : string) :
  Models.is_valid_phone_input (s1 ++ s2)
  = Models.is_valid_phone_input s1 && Models.is_valid_phone_input s2.
Proof.
  induction s1 as [|c s1 IH]; [reflexivity|].
  change (String c s1 ++ s2)%string with (String c (s1 ++ s2)).
  cbn [Models.is_valid_phone_input]. now rewrite IH, andb_assoc.
Qed.

Lemma is_valid_phone_input_substring (s : string) :
  Models.is_valid_phone_input s = true ->
  forall n m, Models.is_valid_phone_input (String.substring n m s) = true.
Proof.
  induction s as [|c s IH]; intros Hs n m.
  - now destruct n, m.
  - cbn in Hs. apply andb_true_iff in Hs as [Hc Hs].
    destruct n as [|n].
    + destruct m as [|m]; [reflexivity|]. cbn. rewrite Hc. now apply IH.
    + cbn. now apply IH.
Qed.

Lemma edited_valid (content : string) (e : edit) :
  Models.is_valid_phone_input content = true ->
  Models.is_valid_phone_input (edited content e) = true.
Proof.
  intros Hc. destruct e as [index text|first last]; cbn [edited].
  - destruct (validate_phone_input "1" text) eqn:E; [|exact Hc].
    apply validate_phone_input_insert in E.
    rewrite !is_valid_phone_input_app, E. unfold take, drop.
    now rewrite !is_valid_phone_input_substring.
  - destruct ((first <? last)%nat && validate_phone_input "0" _); [|exact Hc].
    rewrite is_valid_phone_input_app. unfold take, drop.
    now rewrite !is_valid_phone_input_substring.
Qed.

(** X16: what is typed into a number entry passes the check of the
    number: whatever insertions and deletions are tried on an entry that
    holds phone characters only, in particular on the empty entry, the
    filter drops the edits that would bring in another character, so
    the content is accepted by [is_valid_phone_input] throughout. *)
Theorem typed_number_is_valid_phone_input (edits : list edit) (content : string) :
  Models.is_valid_phone_input content = true ->
  Models.is_valid_phone_input (foldl edited content edits) = true.
Proof.
  revert content. induction edits as [|e edits IH]; intros content Hc; cbn.
  - exact Hc.
  - apply IH. now apply edited_valid.
Qed.

End NumberEntry.

Lemma typed_number_is_valid_phone_input_witness :
  Models.is_valid_phone_input
    (foldl Entry.edited ""
       [Entry.Insert 0 "5"; Entry.Insert 1 "x"; Entry.Insert 1 "55";
        Entry.Insert 1 "-"; Entry.Insert 0 "+"; Entry.Delete 1 2])
  = true.
Proof.
  apply typed_number_is_valid_phone_input. reflexivity.
Defined.

(** * A suggestion in the case of the word it replaces *)

Section CaseOfTheReplacement.

Import Gui.

Lemma char_lower_upper (c : ascii) :
  Py.char_lower (Py.char_upper c) = Py.char_lower c.
Proof. destruct c as [[] [] [] [] [] [] [] []]; reflexivity. Qed.

Lemma char_lower_lower (c : ascii) :
  Py.char_lower (Py.char_lower c) = Py.char_lower c.
Proof. destruct c as [[] [] [] [] [] [] [] []]; reflexivity. Qed.

Lemma char_upper_upper (c : ascii) :
  Py.char_upper (Py.char_upper c) = Py.char_upper c.
Proof. destruct c as [[] [] [] [] [] [] [] []]; reflexivity. Qed.

Lemma lower_upper (s : string) : Py.lower (Py.upper s) = Py.lower s.
Proof. induction s as [|c s IH]; cbn; [reflexivity|]. now rewrite char_lower_upper, IH. Qed.

Lemma lower_lower (s : string) : Py.lower (Py.lower s) = Py.lower s.
Proof. induction s as [|c s IH]; cbn; [reflexivity|]. now rewrite char_lower_lower, IH. Qed.

Lemma upper_upper (s : string) : Py.upper (Py.upper s) = Py.upper s.
Proof. induction s as [|c s IH]; cbn; [reflexivity|]. now rewrite char_upper_upper, IH. Qed.

Lemma lower_capitalize (s : string) : Py.lower (Py.capitalize s) = Py.lower s.
Proof.
  destruct s as [|c s]; cbn; [reflexivity|].
  now rewrite char_lower_upper, lower_lower.
Qed.

Lemma capitalize_capitalize (s : string) :
  Py.capitalize (Py.capitalize s) = Py.capitalize s.
Proof.
  destruct s as [|c s]; cbn; [reflexivity|].
  now rewrite char_upper_upper, lower_lower.
Qed.

Lemma length_upper (s : string) : String.length (Py.upper s) = String.length s.
Proof. induction s as [|c s IH]; cbn; [reflexivity|]. now rewrite IH. Qed.

Lemma length_lower (s : string) : String.length (Py.lower s) = String.length s.
Proof. induction s as [|c s IH]; cbn; [reflexivity|]. now rewrite IH. Qed.

Lemma length_capitalize (s : string) :
  String.length (Py.capitalize s) = String.length s.
Proof. destruct s as [|c s]; cbn; [reflexivity|]. now rewrite length_lower. Qed.

Lemma code_char_upper (c : ascii) :
  (Py.code (Py.char_upper c) <? 128)%N = (Py.code c <? 128)%N.
Proof. destruct c as [[] [] [] [] [] [] [] []]; reflexivity. Qed.

Lemma code_char_lower (c : ascii) :
  (Py.code (Py.char_lower c) <? 128)%N = (Py.code c <? 128)%N.
Proof. destruct c as [[] [] [] [] [] [] [] []]; reflexivity. Qed.

Lemma isascii_upper (s : string) : Plain.isascii (Py.upper s) = Plain.isascii s.
Proof.
  induction s as [|c s IH]; cbn; [reflexivity|].
  now rewrite code_char_upper, IH.
Qed.

Lemma isascii_lower (s : string) : Plain.isascii (Py.lower s) = Plain.isascii s.
Proof.
  induction s as [|c s IH]; cbn; [reflexivity|].
  now rewrite code_char_lower, IH.
Qed.

Lemma isascii_capitalize (s : string) :
  Plain.isascii (Py.capitalize s) = Plain.isascii s.
Proof.
  destruct s as [|c s]; cbn; [reflexivity|].
  now rewrite code_char_upper, isascii_lower.
Qed.

(** X17: matching the case of an ASCII suggestion changes the case and
    nothing else: for every original word and every suggestion of
    ASCII characters, the replacement is of ASCII characters again, has
    the length of the suggestion and is the suggestion once both are
    lower-cased; so the spell check, which looks up the lower-cased
    word, gives the replacement the verdict it gives the suggestion. *)
Theorem match_capitalization_changes_case_only
    (lookup : string -> list Spell.SuggestItem) (original suggestion : string) :
  Plain.isascii suggestion = true ->
  Plain.isascii (match_capitalization original suggestion) = true
  /\ Py.lower (match_capitalization original suggestion) = Py.lower suggestion
  /\ String.length (match_capitalization original suggestion)
     = String.length suggestion
  /\ flagged lookup (match_capitalization original suggestion)
     = flagged lookup suggestion.
Proof.
  intros Hascii.
  assert (Hlower : Py.lower (match_capitalization original suggestion)
                   = Py.lower suggestion).
  { unfold match_capitalization.
    destruct (Py.isupper original); [apply lower_upper|].
    destruct (Py.istitle original); [apply lower_capitalize|].
    destruct (Py.islower original); [apply lower_lower|reflexivity]. }
  split; [|split; [exact Hlower|split]].
  - rewrite <- Hascii. unfold match_capitalization.
    destruct (Py.isupper original); [apply isascii_upper|].
    destruct (Py.istitle original); [apply isascii_capitalize|].
    destruct (Py.islower original); [apply isascii_lower|reflexivity].
  - unfold match_capitalization.
    destruct (Py.isupper original); [apply length_upper|].
    destruct (Py.istitle original); [apply length_capitalize|].
    destruct (Py.islower original); [apply length_lower|reflexivity].
  - unfold flagged. now rewrite Hlower.
Qed.

(** X18: matching the case twice is matching it once: the replacement
    for a word and a suggestion of ASCII characters, offered again as
    the suggestion for the same word, comes back as it is, and is of
    ASCII characters. *)
Theorem match_capitalization_idempotent (original suggestion : string) :
  Plain.isascii suggestion = true ->
  match_capitalization original (match_capitalization original suggestion)
  = match_capitalization original suggestion
  /\ Plain.isascii
       (match_capitalization original (match_capitalization original suggestion))
     = true.
Proof.
  intros Hascii.
  assert (Hagain :
            match_capitalization original
              (match_capitalization original suggestion)
            = match_capitalization original suggestion).
  { unfold match_capitalization.
    destruct (Py.isupper original); [apply upper_upper|].
    destruct (Py.istitle original); [apply capitalize_capitalize|].
    destruct (Py.islower original); [apply lower_lower|reflexivity]. }
  split; [exact Hagain|]. rewrite Hagain, <- Hascii.
  unfold match_capitalization.
  destruct (Py.isupper original); [apply isascii_upper|].
  destruct (Py.istitle original); [apply isascii_capitalize|].
  destruct (Py.islower original); [apply isascii_lower|reflexivity].
Qed.

End CaseOfTheReplacement.

Lemma match_capitalization_changes_case_only_witness :
  Plain.isascii (Gui.match_capitalization "Ther" "tHERE") = true
  /\ Py.lower (Gui.match_capitalization "Ther" "tHERE") = Py.lower "tHERE"
  /\ String.length (Gui.match_capitalization "Ther" "tHERE")
     = String.length "tHERE"
  /\ Gui.flagged Gui.sample_lookup (Gui.match_capitalization "Ther" "tHERE")
     = Gui.flagged Gui.sample_lookup "tHERE".
Proof.
  apply (match_capitalization_changes_case_only Gui.sample_lookup "Ther" "tHERE").
  reflexivity.
Defined.

Lemma match_capitalization_idempotent_witness :
  Gui.match_capitalization "THER" (Gui.match_capitalization "THER" "there")
  = Gui.match_capitalization "THER" "there"
  /\ Plain.isascii
       (Gui.match_capitalization "THER" (Gui.match_capitalization "THER" "there"))
     = true.
Proof.
  apply (match_capitalization_idempotent "THER" "there"). reflexivity.
Defined.

(** * Where the tags of the spell check lie *)

Section TagsOfTheSpellCheck.

Import Gui Tags.

Lemma string_of_list_ascii_app (l1 l2 : list ascii) :
  string_of_list_ascii (l1 ++ l2)
  = (string_of_list_ascii l1 ++ string_of_list_ascii l2)%string.
Proof.
  induction l1 as [|x l1 IH]; [reflexivity|].
  cbn [app string_of_list_ascii]. now rewrite IH.
Qed.

Lemma prefix_append (p after : string) : String.prefix p (p ++ after) = true.
Proof.
  induction p as [|x p IH]; [now destruct after|].
  change (String.prefix (String x p) (String x (p ++ after)) = true).
  cbn [String.prefix]. destruct (ascii_dec x x); [exact IH|contradiction].
Qed.

Lemma prefix_split (p s : string) :
  String.prefix p s = true -> exists after, s = (p ++ after)%string.
Proof.
  revert s. induction p as [|x p IH]; intros s H.
  - now exists s.
  - destruct s as [|y s]; [discriminate|]. cbn [String.prefix] in H.
    destruct (ascii_dec x y) as [->|]; [|discriminate].
    destruct (IH s H) as (after & ->). now exists after.
Qed.

Lemma search_from_unfold (pattern text : string) (pos start : nat) :
  search_from pattern text pos start
  = if (start <=? pos)%nat && String.prefix pattern text then Some pos
    else match text with
         | EmptyString => None
         | String _ text' => search_from pattern text' (S pos) start
         end.
Proof. now destruct text. Qed.

(** What [search] finds is an occurrence of the pattern at or after the
    start. *)
Lemma search_from_found (pattern text : string) :
  forall pos start q,
    search_from pattern text pos start = Some q ->
    start <= q
    /\ exists before after,
         text = (before ++ pattern ++ after)%string
         /\ q = pos + String.length before.
Proof.
  induction text as [|c text IH]; intros pos start q; rewrite search_from_unfold.
  - destruct ((start <=? pos)%nat && String.prefix pattern "") eqn:E; [|discriminate].
    intros H. injection H as <-. apply andb_true_iff in E as [E1 E2].
    apply Nat.leb_le in E1. apply prefix_split in E2 as (after & E2).
    split; [exact E1|]. exists "", after. split; [exact E2|]. cbn. lia.
  - destruct ((start <=? pos)%nat && String.prefix pattern (String c text)) eqn:E.
    + intros H. injection H as <-. apply andb_true_iff in E as [E1 E2].
      apply Nat.leb_le in E1. apply prefix_split in E2 as (after & E2).
      split; [exact E1|]. exists "", after. split; [exact E2|]. cbn. lia.
    + intros H. apply IH in H as (Hstart & before & after & -> & ->).
      split; [exact Hstart|]. exists (String c before), after.
      split; [reflexivity|]. cbn. lia.
Qed.

(** An occurrence at or after the start is found, or an earlier one in
    its place. *)
Lemma search_from_finds (pattern after : string) (start : nat) :
  forall before pos,
    start <= pos + String.length before ->
    exists q,
      search_from pattern (before ++ pattern ++ after) pos start = Some q
      /\ q <= pos + String.length before.
Proof.
  induction before as [|c before IH]; intros pos Hstart;
    rewrite search_from_unfold.
  - cbn in Hstart. change ("" ++ pattern ++ after)%string with (pattern ++ after)%string.
    rewrite prefix_append. replace (start <=? pos)%nat with true
      by (symmetry; apply Nat.leb_le; lia).
    exists pos. split; [reflexivity|]. cbn. lia.
  - change (String c before ++ pattern ++ after)%string
      with (String c (before ++ pattern ++ after)).
    destruct ((start <=? pos)%nat && _).
    + exists pos. split; [reflexivity|]. lia.
    + destruct (IH (S pos)) as (q & Hq & Hle); [cbn in Hstart; lia|].
      exists q. split; [exact Hq|]. cbn. lia.
Qed.

Lemma spans_in_earlier (content : string) (spans : list (nat * string))
    (from from' : nat) :
  from <= from' -> spans_in content from' spans -> spans_in content from spans.
Proof.
  destruct spans as [|span rest]; [auto|]. cbn. intros Hle (H1 & H2 & H3).
  split; [lia|auto].
Qed.

Lemma words_from_spans (s : string) :
  forall cur pos pre,
    String.length pre = pos ->
    match cur with
    | Some (p, w) =>
        exists pre0, pre = (pre0 ++ string_of_list_ascii (List.rev w))%string
                     /\ String.length pre0 = p
    | None => True
    end ->
    spans_in (pre ++ s)
      (match cur with Some (p, _) => p | None => pos end)
      (words_from cur pos s).
Proof.
  induction s as [|c s IH]; intros cur pos pre Hpos Hcur.
  - cbn [words_from]. destruct cur as [[p w]|]; [|exact I].
    destruct Hcur as (pre0 & -> & Hp). cbn. split; [lia|]. split; [|exact I].
    exists pre0, "". split; [|exact Hp]. now rewrite !append_empty_r.
  - assert (Hnext : ((pre ++ String c "") ++ s = pre ++ String c s)%string)
      by now rewrite append_assoc.
    assert (Hlen : String.length (pre ++ String c "") = S pos)
      by (rewrite length_append; cbn; lia).
    cbn [words_from]. destruct (Py.char_isspace c).
    + specialize (IH None (S pos) (pre ++ String c "")%string Hlen I).
      rewrite Hnext in IH.
      destruct cur as [[p w]|].
      * destruct Hcur as (pre0 & -> & Hp). cbn [app spans_in fst snd].
        split; [lia|]. split.
        -- exists pre0, (String c s). split; [|exact Hp]. now rewrite append_assoc.
        -- apply (spans_in_earlier _ _ _ (S pos)); [|exact IH].
           rewrite length_append in Hpos. lia.
      * cbn [app]. apply (spans_in_earlier _ _ _ (S pos)); [lia|exact IH].
    + destruct cur as [[p w]|].
      * destruct Hcur as (pre0 & -> & Hp).
        specialize (IH (Some (p, c :: w)) (S pos)
                      ((pre0 ++ string_of_list_ascii (List.rev w)) ++ String c "")%string
                      Hlen).
        rewrite Hnext in IH. apply IH.
        exists pre0. split; [|exact Hp].
        cbn [List.rev]. now rewrite string_of_list_ascii_app, append_assoc.
      * specialize (IH (Some (pos, [c])) (S pos) (pre ++ String c "")%string Hlen).
        rewrite Hnext in IH. apply IH.
        exists pre. split; [reflexivity|exact Hpos].
Qed.

Lemma word_spans_in (content : string) : spans_in content 0 (word_spans content).
Proof. exact (words_from_spans content None 0 "" eq_refl I). Qed.

Variable lookup : string -> list Spell.SuggestItem.

Local Abbreviation flagged := (Gui.flagged lookup).
Local Abbreviation check_words := (Gui.check_words lookup).
Local Abbreviation check_spelling := (Gui.check_spelling lookup).

(** The loop of the spell check, word by word. *)
Lemma check_words_tags (text : string) (spans : list (nat * string)) :
  forall start w,
    content w = text ->
    spans_in text start spans ->
    content (check_words (List.map snd spans) start w) = text
    /\ exists new,
         misspelled (check_words (List.map snd spans) start w)
         = misspelled w ++ new
         /\ Forall2 (fun tag span => spells text tag span.2 /\ tag.1 <= span.1)
              new (List.filter (fun span => flagged span.2) spans)
         /\ laid_out start new.
Proof.
  induction spans as [|[p word] rest IH]; intros start w Hw Hspans.
  - cbn. split; [exact Hw|]. exists []. rewrite app_nil_r.
    repeat split. constructor.
  - cbn [spans_in fst snd] in Hspans. destruct Hspans as (Hp & Hocc & Hrest).
    cbn [List.map snd Gui.check_words List.filter].
    destruct (flagged word) eqn:Hflag.
    + destruct Hocc as (before & after & Htext & Hbefore).
      destruct (search_from_finds word after start before 0) as (q & Hq & Hle);
        [lia|].
      unfold search. rewrite Hw, Htext, Hq.
      apply search_from_found in Hq as (Hstart & before' & after' & Hocc' & ->).
      set (q := 0 + String.length before') in *.
      destruct (IH (q + String.length word)
                  {| content := text;
                     misspelled := misspelled w ++ [(q, q + String.length word)] |})
        as (Hcontent & new & Hnew & Hall & Hlaid).
      * reflexivity.
      * apply (spans_in_earlier _ _ _ (p + String.length word)); [lia|exact Hrest].
      * rewrite <- Htext. split; [exact Hcontent|].
        exists ((q, q + String.length word) :: new).
        rewrite Hnew. cbn [misspelled]. rewrite <- app_assoc.
        split; [reflexivity|]. split.
        -- constructor; [|exact Hall]. cbn [fst snd]. split; [|lia].
           split; [|reflexivity]. exists before', after'.
           split; [now rewrite Htext|reflexivity].
        -- cbn [laid_out fst snd]. split; [exact Hstart|]. split; [lia|exact Hlaid].
    + apply IH; [exact Hw|].
      apply (spans_in_earlier _ _ _ (p + String.length word)); [lia|exact Hrest].
Qed.

(** X19: the spell check sets one tag for every flagged word, in the
    order of the words: the tag has the length of its word, it covers
    the letters of its word, and it lies at the place of the word or
    before it; the tags follow one another without overlap, and the
    text is left as it was. *)
Theorem check_spelling_tags_every_flagged_word (widget : Text) :
  exists w',
    check_spelling (Some widget) = Some w'
    /\ content w' = content widget
    /\ Forall2 (fun tag span =>
                  spells (content widget) tag span.2 /\ tag.1 <= span.1)
         (misspelled w') (flagged_spans lookup (content widget))
    /\ laid_out 0 (misspelled w').
Proof.
  eexists. split; [reflexivity|].
  destruct (check_words_tags (content widget) (word_spans (content widget)) 0
              {| content := content widget; misspelled := [] |} eq_refl
              (word_spans_in (content widget)))
    as (Hcontent & new & Hnew & Hall & Hlaid).
  unfold split. rewrite Hnew. auto.
Qed.

Lemma tags_at_the_words (text : string) (tags : list (nat * nat))
    (spans : list (nat * string)) :
  Forall2 (fun tag span => spells text tag span.2 /\ tag.1 <= span.1) tags spans ->
  (forall span, In span spans ->
     forall q, q < span.1 -> ~ occurs_at text q span.2) ->
  tags = List.map (fun span => (span.1, span.1 + String.length span.2)) spans.
Proof.
  induction 1 as [|tag span tags spans [[Hocc Hend] Hle] Hall IH]; intros Hfirst;
    [reflexivity|].
  cbn [List.map]. f_equal.
  - assert (Hat : tag.1 = span.1).
    { destruct (Nat.eq_dec tag.1 span.1) as [E|E]; [exact E|].
      destruct (Hfirst span (or_introl eq_refl) tag.1); [lia|exact Hocc]. }
    destruct tag as [p e]. cbn [fst snd] in *. subst. reflexivity.
  - apply IH. intros span' Hin. apply Hfirst. now right.
Qed.

(** X20: when the letters of every flagged word occur nowhere in the
    text before the word itself, the tags are exactly the places of the
    flagged words. *)
Theorem check_spelling_tags_first_occurrences (widget : Text) :
  (forall span, In span (flagged_spans lookup (content widget)) ->
     forall q, q < span.1 -> ~ occurs_at (content widget) q span.2) ->
  exists w',
    check_spelling (Some widget) = Some w'
    /\ misspelled w'
       = List.map (fun span => (span.1, span.1 + String.length span.2))
           (flagged_spans lookup (content widget)).
Proof.
  intros Hfirst.
  destruct (check_words_tags (content widget) (word_spans (content widget)) 0
              {| content := content widget; misspelled := [] |} eq_refl
              (word_spans_in (content widget)))
    as (_ & new & Hnew & Hall & _).
  eexists. split; [reflexivity|].
  unfold split. rewrite Hnew. cbn [misspelled app].
  exact (tags_at_the_words _ _ _ Hall Hfirst).
Qed.

End TagsOfTheSpellCheck.

Lemma check_spelling_tags_first_occurrences_witness :
  exists w',
    Gui.check_spelling Gui.sample_lookup
      (Some {| Gui.content := "ther is the camper"; Gui.misspelled := [(2, 5)] |})
    = Some w'
    /\ Gui.misspelled w'
       = List.map (fun span => (span.1, span.1 + String.length span.2))
           (Tags.flagged_spans Gui.sample_lookup "ther is the camper").
Proof.
  apply (check_spelling_tags_first_occurrences Gui.sample_lookup
           {| Gui.content := "ther is the camper"; Gui.misspelled := [(2, 5)] |}).
  intros span Hin q Hq. vm_compute in Hin.
  destruct Hin as [<-|[<-|[]]]; cbn [fst snd] in *.
  - lia.
  - intros (before & after & Htext & Hlen). cbn [Gui.content] in Htext.
    do 5 (destruct before as [|? before]; [cbn in Hlen; try lia; discriminate Htext|]).
    cbn in Hlen. lia.
Defined.

(** * The stars of the rating *)

Section StarsOfTheRating.

Import Stars.

Lemma five_labels (star_labels : list image) :
  length star_labels = 5 ->
  exists a b c d e, star_labels = [a; b; c; d; e].
Proof.
  destruct star_labels as [|a [|b [|c [|d [|e [|f l]]]]]]; try discriminate.
  intros _. now exists a, b, c, d, e.
Qed.

(** X21: the stars show the rating, rounded down to the half star: for
    five labels and a rating from 0 to 5, whatever the labels showed
    before, [update_star_display] leaves five labels that read as a
    value not above the rating and less than half a star below it. *)
Theorem stars_show_the_rating (star_labels : list image) (value : Q) :
  length star_labels = 5 ->
  (0 <= value)%Q ->
  (value <= 5)%Q ->
  exists labels,
    update_star_display star_labels value = Some labels
    /\ length labels = 5
    /\ (shown labels <= value)%Q
    /\ (value < shown labels + (1 # 2))%Q.
Proof.
  intros Hlen H0 H5. destruct value as [n d].
  unfold Qle in H0, H5. cbn in H0, H5.
  assert (Hn : (0 <= n)%Z) by lia.
  pose (f := (n / Z.pos d)%Z).
  assert (Hint : int (n # d) = f).
  { unfold int. cbn. apply Z.quot_div_nonneg; lia. }
  assert (Hf : (f * Z.pos d <= n < (f + 1) * Z.pos d)%Z).
  { pose proof (Z.mul_div_le n (Z.pos d) eq_refl).
    pose proof (Z.mul_succ_div_gt n (Z.pos d) eq_refl).
    fold f in H, H1. lia. }
  assert (Hrange : (0 <= f <= 5)%Z).
  { split; [apply Z.div_pos; lia|]. apply Z.div_le_upper_bound; lia. }
  assert (Hhalf : has_half (n # d) = true
                  <-> (Z.pos d <= 2 * (n - f * Z.pos d))%Z).
  { unfold has_half, floor. rewrite Qle_bool_iff. cbn [Qnum Qden]. fold f.
    unfold Qle, Qminus, Qplus, Qopp, inject_Z. cbn [Qnum Qden]. lia. }
  destruct (five_labels star_labels Hlen) as (a & b & c & e & g & ->).
  unfold update_star_display. cbn [List.seq configure_all].
  unfold image_of. rewrite Hint.
  assert (Hcases : f = 0%Z \/ f = 1%Z \/ f = 2%Z \/ f = 3%Z \/ f = 4%Z \/ f = 5%Z)
    by lia.
  destruct (has_half (n # d)) eqn:Hh;
    [assert (Hd : (Z.pos d <= 2 * (n - f * Z.pos d))%Z) by now apply Hhalf
    |assert (Hd : ~ (Z.pos d <= 2 * (n - f * Z.pos d))%Z)
       by (intros H; apply Hhalf in H; discriminate)];
    clear Hhalf Hint;
    destruct Hcases as [E|[E|[E|[E|[E|E]]]]]; rewrite E in *; clear E f;
    match goal with
    | |- exists labels, ?run = Some labels /\ _ =>
        let r := eval vm_compute in run in change run with r
    end;
    eexists; (split; [reflexivity|]); (split; [reflexivity|]);
    match goal with
    | |- (shown ?l <= _)%Q /\ _ =>
        let q := eval vm_compute in (shown l) in change (shown l) with q
    end;
    unfold Qle, Qlt, Qplus; cbn [Qnum Qden]; lia.
Qed.

(** X22: the ten ratings the stars can be clicked to are shown as they
    are: the left button on the star [pos] fills the stars up to it, the
    right button fills the stars before it and halves it, and the stars
    after it are empty. *)
Theorem clicked_rating_is_shown (star_labels : list image) (pos : nat) :
  length star_labels = 5 ->
  pos < 5 ->
  update_star_display star_labels (left_click pos)
  = Some (replicate (S pos) star_full ++ replicate (4 - pos) star_empty)
  /\ update_star_display star_labels (right_click pos)
     = Some (replicate pos star_full ++ [star_half]
             ++ replicate (4 - pos) star_empty).
Proof.
  intros Hlen Hpos.
  destruct (five_labels star_labels Hlen) as (a & b & c & e & g & ->).
  destruct pos as [|[|[|[|[|pos]]]]]; [| | | | |lia]; split; reflexivity.
Qed.

(** The loop needs its five labels: with fewer the call raises
    IndexError. *)
Lemma update_star_display_short (star_labels : list image) (value : Q) :
  length star_labels < 5 -> update_star_display star_labels value = None.
Proof.
  intros Hlen. unfold update_star_display. cbn [List.seq configure_all].
  destruct star_labels as [|a [|b [|c [|e [|g l]]]]]; cbn in Hlen; try lia;
    unfold configure; cbn [length Nat.ltb Nat.leb]; cbn; reflexivity.
Qed.

End StarsOfTheRating.

Lemma stars_show_the_rating_witness :
  exists labels,
    Stars.update_star_display
      [Stars.star_full; Stars.star_full; Stars.star_full; Stars.star_full;
       Stars.star_full] (19 # 4)
    = Some labels
    /\ length labels = 5
    /\ (Stars.shown labels <= 19 # 4)%Q
    /\ (19 # 4 < Stars.shown labels + (1 # 2))%Q.
Proof.
  apply stars_show_the_rating; [reflexivity|discriminate|discriminate].
Defined.

Lemma clicked_rating_is_shown_witness :
  Stars.update_star_display (replicate 5 Stars.star_empty) (Stars.left_click 2)
  = Some (replicate 3 Stars.star_full ++ replicate 2 Stars.star_empty)
  /\ Stars.update_star_display (replicate 5 Stars.star_empty) (Stars.right_click 2)
     = Some (replicate 2 Stars.star_full ++ [Stars.star_half]
             ++ replicate 2 Stars.star_empty).
Proof.
  apply (clicked_rating_is_shown (replicate 5 Stars.star_empty) 2);
    [reflexivity|lia].
Defined.

(** * The search tab *)

Section SearchTab.

Import Logic Search.

Lemma filter_sublist {A : Type} (p : A -> bool) (l : list A) :
  sublist (List.filter p l) l.
Proof.
  induction l as [|a l IH]; cbn; [constructor|].
  destruct (p a); now constructor.
Qed.

Lemma fetch_campers_sublist (t : table) (search_term column : option string)
    (shown : list row) :
  fetch_campers t search_term column = Some shown -> sublist shown (rows t).
Proof.
  unfold fetch_campers.
  destruct search_term as [term|]; [|intros H; now injection H as <-].
  destruct column as [col|]; [|intros H; now injection H as <-].
  destruct (Py.truthy term && Py.truthy col); [|intros H; now injection H as <-].
  destruct (column_of col); [|discriminate].
  intros H. injection H as <-. apply filter_sublist.
Qed.

Lemma sublist_In {A : Type} (l k : list A) (x : A) :
  sublist l k -> In x l -> In x k.
Proof.
  induction 1 as [|a l k _ IH|a l k _ IH]; cbn; [tauto| |]; intuition.
Qed.

Lemma perform_search_sublist (t : table) (f : fields) :
  sublist (perform_search t f) (rows t).
Proof.
  unfold perform_search.
  destruct (negb _); [|destruct (Py.truthy (Py.strip (search_name f)));
    [|destruct (Py.truthy (Py.strip (search_surname f)));
      [|destruct (Py.truthy (Py.strip (search_email f)));
        [|destruct (Py.truthy (Py.strip (search_number f)))]]]].
  6: apply sublist_nil_l.
  all: match goal with
       | |- sublist (default [] ?r) _ =>
           destruct r as [shown|] eqn:E;
             [exact (fetch_campers_sublist _ _ _ _ E)|apply sublist_nil_l]
       end.
Qed.

(** X23: what the search shows.  The items of the tree are rows of the
    table, in the order of the table.  With all four entries blank they
    are all the rows.  With a name that is not blank the other three
    entries are not looked at: the search is by one field, not by all
    that are filled in. *)
Theorem perform_search_shows (t : table) (f : fields) :
  sublist (perform_search t f) (rows t)
  /\ (Py.strip (search_name f) = "" -> Py.strip (search_surname f) = "" ->
      Py.strip (search_email f) = "" -> Py.strip (search_number f) = "" ->
      perform_search t f = rows t)
  /\ (Py.strip (search_name f) <> "" ->
      perform_search t f = perform_search t (by_name (search_name f))).
Proof.
  split; [|split].
  - apply perform_search_sublist.
  - intros H1 H2 H3 H4. unfold perform_search. now rewrite H1, H2, H3, H4.
  - intros Hname. apply truthy_not_empty in Hname.
    unfold perform_search, by_name. cbn [search_name search_surname search_email
                                          search_number].
    rewrite Hname. reflexivity.
Qed.

(** X24: a search by name finds the campers whose name holds the term:
    when the name entry, stripped, is a term without [%] and [_], the
    tree shows exactly the rows whose name contains the term, letter
    case ignored, whatever the other entries hold. *)
Theorem perform_search_by_name (t : table) (f : fields) :
  Py.strip (search_name f) <> "" ->
  Stated.no_wildcard (Py.strip (search_name f)) = true ->
  perform_search t f
  = List.filter
      (fun r => Stated.contains_ci (name (cols r)) (Py.strip (search_name f)))
      (rows t).
Proof.
  intros Hname Hplain. apply truthy_not_empty in Hname.
  unfold perform_search. rewrite Hname. cbn [orb negb].
  now rewrite (fetch_campers_plain_term t "name" _ name eq_refl Hname Hplain).
Qed.

(** X25: the button that deletes the selected camper.  For a stored row
    with a number, in a table that obeys the constraints of the schema,
    the table loses this row and no other, and the tree, filled again
    by the search, no longer shows it.  For a row without a number the
    button does nothing: the table and the tree stay as they are. *)
Theorem delete_selected_camper_removes_the_row (t : table)
    (tree more : list row) (item : row) (f : fields) :
  (Store.consistent t -> In item (rows t) -> number (cols item) <> "" ->
   (delete_selected_camper t tree (item :: more) f).1 = delete_camper t (id item)
   /\ length (rows (delete_selected_camper t tree (item :: more) f).1) + 1
      = length (rows t)
   /\ ~ In item (delete_selected_camper t tree (item :: more) f).2)
  /\ (number (cols item) = "" ->
      delete_selected_camper t tree (item :: more) f = (t, tree)).
Proof.
  split.
  - intros Ht Hitem Hnumber. apply truthy_not_empty in Hnumber.
    unfold delete_selected_camper. rewrite Hnumber. cbn [fst snd].
    rewrite (delete_camper_by_number_by_id t item Ht Hitem).
    split; [reflexivity|]. split.
    + cbn. apply filter_one_out; [apply Ht|exact Hitem].
    + intros Hin.
      assert (Hrow : In item (rows (delete_camper t (id item))))
        by exact (sublist_In _ _ _ (perform_search_sublist _ f) Hin).
      cbn in Hrow. apply filter_In in Hrow as [_ Hrow].
      rewrite Z.eqb_refl in Hrow. discriminate.
  - intros Hnumber. unfold delete_selected_camper. now rewrite Hnumber.
Qed.

End SearchTab.

Lemma perform_search_shows_witness :
  Search.perform_search Logic.ann_table
    {| Search.search_name := " "; Search.search_surname := "";
       Search.search_email := "  "; Search.search_number := "" |}
  = Logic.rows Logic.ann_table
  /\ Search.perform_search Logic.ann_table
       {| Search.search_name := " an "; Search.search_surname := "Poe";
          Search.search_email := ""; Search.search_number := "000" |}
     = Search.perform_search Logic.ann_table (Search.by_name " an ").
Proof.
  destruct (perform_search_shows Logic.ann_table
              {| Search.search_name := " "; Search.search_surname := "";
                 Search.search_email := "  "; Search.search_number := "" |})
    as (_ & Hblank & _).
  destruct (perform_search_shows Logic.ann_table
              {| Search.search_name := " an "; Search.search_surname := "Poe";
                 Search.search_email := ""; Search.search_number := "000" |})
    as (_ & _ & Hname).
  split.
  - apply Hblank; reflexivity.
  - apply Hname. discriminate.
Defined.

Lemma perform_search_by_name_witness :
  Search.perform_search Logic.ann_table
    {| Search.search_name := " an "; Search.search_surname := "Poe";
       Search.search_email := ""; Search.search_number := "000" |}
  = List.filter
      (fun r => Stated.contains_ci (Logic.name (Logic.cols r)) (Py.strip " an "))
      (Logic.rows Logic.ann_table).
Proof.
  apply (perform_search_by_name Logic.ann_table
           {| Search.search_name := " an "; Search.search_surname := "Poe";
              Search.search_email := ""; Search.search_number := "000" |}).
  - discriminate.
  - reflexivity.
Defined.

Lemma delete_selected_camper_removes_the_row_witness :
  let item := {| Logic.id := 1; Logic.cols := Logic.columns_of_user Logic.ann |} in
  (Search.delete_selected_camper Logic.ann_table [item] [item] (Search.by_name "")).1
  = Logic.delete_camper Logic.ann_table 1
  /\ length (Logic.rows
               (Search.delete_selected_camper Logic.ann_table [item] [item]
                  (Search.by_name "")).1) + 1
     = length (Logic.rows Logic.ann_table)
  /\ ~ In item
         (Search.delete_selected_camper Logic.ann_table [item] [item]
            (Search.by_name "")).2.
Proof.
  intros item.
  destruct (delete_selected_camper_removes_the_row Logic.ann_table [item] [] item
              (Search.by_name "")) as [Hremoves _].
  apply Hremoves.
  - split; cbn.
    + constructor; [intros []|constructor].
    + constructor; [intros []|constructor].
    + intros r [<-|[]]. vm_compute. split; [reflexivity|discriminate].
  - left. reflexivity.
  - discriminate.
Defined.

(** * A camper without a number *)

Section WithoutNumber.

Import Logic Search.

(** X26: a camper without a number is one of a kind.  A form with a
    name, a surname, a rating from 0 to 5 and an empty number is valid;
    submitted to a table where no row has the empty number, it is stored
    as a new row with the empty number.  Submitted again, it raises
    IntegrityError, since the empty number is a number to the UNIQUE
    constraint.  And the button that deletes the selected camper does
    nothing for the row that was stored. *)
Theorem numberless_camper_is_stored_once (t : table) (f : form) :
  Py.strip (name_entry f) <> "" ->
  Py.strip (surname_entry f) <> "" ->
  number_entry f = "" ->
  (0 <= rating_var f)%Q ->
  (rating_var f <= 5)%Q ->
  (forall r, In r (rows t) -> number (cols r) <> "") ->
  exists t' r,
    handle_submit t f = Ok t'
    /\ rows t' = rows t ++ [r]
    /\ number (cols r) = ""
    /\ handle_submit t' f = Raise IntegrityError
    /\ forall tree more fields,
         delete_selected_camper t' tree (r :: more) fields = (t', tree).
Proof.
  intros Hname Hsurname Hnumber H0 H5 Hfree.
  apply truthy_not_empty in Hname, Hsurname.
  set (user := Models.UserData_init (name_entry f) (number_entry f)
                 (surname_entry f) (note_entry f) (rating_var f)
                 (email_entry f) (status_var f)).
  assert (Hvalid : Models.is_valid user = true).
  { apply is_valid_intro; unfold user, Models.UserData_init;
      cbn [Models.name Models.surname Models.number Models.rating];
      try assumption; rewrite Hnumber; [reflexivity|cbn; lia]. }
  assert (Huser : number (columns_of_user user) = "") by exact Hnumber.
  assert (Hnone : number_taken (rows t) None "" = false).
  { apply not_true_iff_false. intros H.
    apply existsb_exists in H as (r & Hr & H).
    apply andb_true_iff in H as [H _]. apply String.eqb_eq in H.
    now apply (Hfree r Hr). }
  exists {| rows := rows t ++ [{| id := next_rowid t; cols := columns_of_user user |}];
            seq := next_rowid t |},
         {| id := next_rowid t; cols := columns_of_user user |}.
  split; [|split; [reflexivity|split; [exact Huser|split]]].
  - unfold handle_submit. fold user. rewrite Hvalid.
    unfold add_camper, sql_insert. now rewrite Huser, Hnone.
  - unfold handle_submit. fold user. rewrite Hvalid.
    unfold add_camper, sql_insert. rewrite Huser. cbn [rows].
    assert (Htaken : number_taken
                       (rows t ++ [{| id := next_rowid t;
                                      cols := columns_of_user user |}])
                       None "" = true).
    { apply existsb_exists. eexists. split; [apply in_or_app; right; now left|].
      cbn [cols id]. rewrite Huser. reflexivity. }
    now rewrite Htaken.
  - intros tree more fields. unfold delete_selected_camper.
    cbn [cols]. now rewrite Huser.
Qed.

End WithoutNumber.

Lemma numberless_camper_is_stored_once_witness :
  exists t' r,
    Logic.handle_submit Logic.ann_table Search.numberless_form = Ok t'
    /\ Logic.rows t' = Logic.rows Logic.ann_table ++ [r]
    /\ Logic.number (Logic.cols r) = ""
    /\ Logic.handle_submit t' Search.numberless_form = Raise IntegrityError
    /\ forall tree more fields,
         Search.delete_selected_camper t' tree (r :: more) fields = (t', tree).
Proof.
  apply numberless_camper_is_stored_once.
  - discriminate.
  - discriminate.
  - reflexivity.
  - discriminate.
  - discriminate.
  - intros r [<-|[]]. discriminate.
Defined.

(** * One backup after another *)

Section TwoBackups.

Import Backup Moments.

Variable here : string.

Local Abbreviation db_path := (get_db_path here).
Local Abbreviation backup_dir := (join here "backups").
Local Abbreviation backup_path now :=
  (join backup_dir ("campers_backup_" ++ strftime now ++ ".db")).

(** After a backup the backup directory is a directory, the backup
    holds the bytes, and the store file is as it was. *)
Lemma after_a_backup (now : datetime) (fs : filesystem)
    (bytes : list Byte.byte) :
  let fs1 :=
    <[backup_path now := File bytes]> (<[backup_dir := Directory]> fs) in
  fs1 !! backup_dir = Some Directory
  /\ fs1 !! backup_path now = Some (File bytes)
  /\ fs1 !! db_path = fs !! db_path.
Proof.
  intros fs1. unfold fs1.
  pose proof (backup_path_not_backup_dir here
                ("campers_backup_" ++ strftime now ++ ".db") eq_refl) as Hbd.
  pose proof (backup_path_not_db_path here
                ("campers_backup_" ++ strftime now ++ ".db") eq_refl) as Hdb.
  pose proof (backup_dir_not_db_path here) as Hdd.
  split; [|split].
  - rewrite lookup_insert_ne by exact Hbd. apply lookup_insert_eq.
  - apply lookup_insert_eq.
  - rewrite lookup_insert_ne by exact Hdb. now rewrite lookup_insert_ne.
Qed.

(** X27: backups of different moments are kept apart, backups of one
    moment are not.  Take the store file present, no regular file in
    the place of the backup directory and nothing at the paths of the
    two backups.  A backup at one moment of the calendar and a second
    one at another moment leave two files in the backup directory,
    each with the bytes of the store.  A second backup within the
    second of the first goes to the path of the first: it adds no file,
    and when the store was written anew in between, the copy of the old
    bytes is gone and the one backup file holds the new bytes. *)
Theorem backups_of_two_moments (now1 now2 : datetime)
    (fs : filesystem) (bytes bytes' : list Byte.byte) :
  calendar now1 ->
  calendar now2 ->
  fs !! db_path = Some (File bytes) ->
  (forall other, fs !! backup_dir <> Some (File other)) ->
  fs !! backup_path now1 = None ->
  fs !! backup_path now2 = None ->
  exists fs1,
    create_db_backup here now1 fs = (Ok (backup_path now1), fs1)
    /\ (now1 <> now2 ->
        exists fs2,
          create_db_backup here now2 fs1 = (Ok (backup_path now2), fs2)
          /\ backup_path now1 <> backup_path now2
          /\ fs2 !! backup_path now1 = Some (File bytes)
          /\ fs2 !! backup_path now2 = Some (File bytes))
    /\ rewritten here bytes' fs1 !! backup_path now1 = Some (File bytes)
    /\ create_db_backup here now1 (rewritten here bytes' fs1)
       = (Ok (backup_path now1),
          <[backup_path now1 := File bytes']> (rewritten here bytes' fs1)).
Proof.
  intros Hcal1 Hcal2 Hfile Hdir Hnew1 Hnew2.
  pose proof (backup_path_not_db_path here
                ("campers_backup_" ++ strftime now1 ++ ".db") eq_refl) as Hdb1.
  pose proof (backup_path_not_backup_dir here
                ("campers_backup_" ++ strftime now2 ++ ".db") eq_refl) as Hbd2.
  pose proof (backup_dir_not_db_path here) as Hdd.
  destruct (after_a_backup now1 fs bytes) as (Hdir1 & Hcopy1 & Hstore1).
  rewrite Hfile in Hstore1.
  exists (<[backup_path now1 := File bytes]> (<[backup_dir := Directory]> fs)).
  split; [|split; [|split]].
  - apply create_db_backup_copies; [exact Hfile|exact Hdir|].
    now rewrite Hnew1.
  - intros Hdiff.
    assert (Hpaths : backup_path now1 <> backup_path now2).
    { intros Heq. apply Hdiff.
      apply (timestamped_moment backup_dir (backup_path now1)).
      - now apply timestamped_strftime.
      - rewrite Heq. now apply timestamped_strftime. }
    eexists. split; [|split; [exact Hpaths|]].
    + apply create_db_backup_copies; [exact Hstore1| |].
      * intros other. now rewrite Hdir1.
      * rewrite lookup_insert_ne by exact Hpaths.
        rewrite lookup_insert_ne by (intros Heq; now apply Hbd2).
        now rewrite Hnew2.
    + destruct (after_a_backup now2
                  (<[backup_path now1 := File bytes]>
                     (<[backup_dir := Directory]> fs)) bytes)
        as (_ & Hcopy2 & _).
      split; [|exact Hcopy2].
      rewrite lookup_insert_ne by (intros Heq; now apply Hpaths).
      rewrite lookup_insert_ne; [exact Hcopy1|].
      intros Heq. apply (backup_path_not_backup_dir here
                           ("campers_backup_" ++ strftime now1 ++ ".db") eq_refl).
      now symmetry.
  - unfold rewritten. rewrite lookup_insert_ne; [exact Hcopy1|].
    intros Heq. now apply Hdb1.
  - assert (Hdir' : rewritten here bytes'
                      (<[backup_path now1 := File bytes]>
                         (<[backup_dir := Directory]> fs)) !! backup_dir
                    = Some Directory).
    { unfold rewritten. rewrite lookup_insert_ne; [exact Hdir1|].
      intros Heq. now apply Hdd. }
    etransitivity; [apply create_db_backup_copies|].
    + unfold rewritten. apply lookup_insert_eq.
    + intros other. now rewrite Hdir'.
    + unfold rewritten. rewrite lookup_insert_ne by (intros Heq; now apply Hdb1).
      now rewrite Hcopy1.
    + now rewrite (insert_id _ _ _ Hdir').
Qed.

End TwoBackups.

Lemma backups_of_two_moments_witness :
  exists fs1,
    Backup.create_db_backup "/app" Backup.sample_now Backup.sample_fs
    = (Ok "/app/backups/campers_backup_20250307_090542.db", fs1)
    /\ (Backup.sample_now <> Moments.later_now ->
        exists fs2,
          Backup.create_db_backup "/app" Moments.later_now fs1
          = (Ok "/app/backups/campers_backup_20250307_090543.db", fs2)
          /\ "/app/backups/campers_backup_20250307_090542.db"
             <> "/app/backups/campers_backup_20250307_090543.db"
          /\ fs2 !! "/app/backups/campers_backup_20250307_090542.db"
             = Some (Backup.File Backup.sample_bytes)
          /\ fs2 !! "/app/backups/campers_backup_20250307_090543.db"
             = Some (Backup.File Backup.sample_bytes))
    /\ Moments.rewritten "/app" [] fs1
       !! "/app/backups/campers_backup_20250307_090542.db"
       = Some (Backup.File Backup.sample_bytes)
    /\ Backup.create_db_backup "/app" Backup.sample_now
         (Moments.rewritten "/app" [] fs1)
       = (Ok "/app/backups/campers_backup_20250307_090542.db",
          <["/app/backups/campers_backup_20250307_090542.db" := Backup.File []]>
            (Moments.rewritten "/app" [] fs1)).
Proof.
  apply (backups_of_two_moments "/app" Backup.sample_now Moments.later_now
           Backup.sample_fs Backup.sample_bytes []).
  - unfold Backup.calendar. cbn. lia.
  - unfold Backup.calendar. cbn. lia.
  - vm_compute. reflexivity.
  - intros other H. vm_compute in H. discriminate H.
  - vm_compute. reflexivity.
  - vm_compute. reflexivity.
Defined.

(** * The case of a search term *)

Section CaseOfTheTerm.

Import Logic.

Lemma char_lower_case (c : ascii) (upper_case : bool) :
  Py.char_lower (if upper_case then Py.char_upper c else Py.char_lower c)
  = Py.char_lower c.
Proof. destruct upper_case; [apply char_lower_upper|apply char_lower_lower]. Qed.

Lemma char_case_percent (c : ascii) (upper_case : bool) :
  Ascii.eqb (if upper_case then Py.char_upper c else Py.char_lower c) "%"
  = Ascii.eqb c "%".
Proof. destruct upper_case; destruct c as [[] [] [] [] [] [] [] []]; reflexivity. Qed.

Lemma char_case_underscore (c : ascii) (upper_case : bool) :
  Ascii.eqb (if upper_case then Py.char_upper c else Py.char_lower c) "_"
  = Ascii.eqb c "_".
Proof. destruct upper_case; destruct c as [[] [] [] [] [] [] [] []]; reflexivity. Qed.

(** [LIKE] does not tell a pattern from the pattern in another case. *)
Lemma like_case (upper_case : bool) (pattern : list ascii) :
  forall text,
    like (List.map (fun c => if upper_case then Py.char_upper c
                             else Py.char_lower c) pattern) text
    = like pattern text.
Proof.
  induction pattern as [|p pattern IH]; intros text; [reflexivity|].
  cbn [List.map like]. rewrite char_case_percent.
  destruct (Ascii.eqb p "%").
  - induction text as [|c text IHtext].
    + now rewrite IH.
    + now rewrite IH, IHtext.
  - destruct text as [|c text]; [reflexivity|].
    now rewrite char_case_underscore, char_lower_case, IH.
Qed.

Lemma chars_upper (s : string) :
  list_ascii_of_string (Py.upper s)
  = List.map Py.char_upper (list_ascii_of_string s).
Proof. induction s as [|c s IH]; cbn; [reflexivity|]. now rewrite IH. Qed.

Lemma chars_lower (s : string) :
  list_ascii_of_string (Py.lower s)
  = List.map Py.char_lower (list_ascii_of_string s).
Proof. induction s as [|c s IH]; cbn; [reflexivity|]. now rewrite IH. Qed.

Lemma sql_like_term_case (term value : string) :
  sql_like ("%" ++ Py.upper term ++ "%") value
  = sql_like ("%" ++ term ++ "%") value
  /\ sql_like ("%" ++ Py.lower term ++ "%") value
     = sql_like ("%" ++ term ++ "%") value.
Proof.
  unfold sql_like. rewrite !chars_app, chars_upper, chars_lower.
  pose proof (like_case true (list_ascii_of_string ("%" ++ term ++ "%"))
                (list_ascii_of_string value)) as Hup.
  pose proof (like_case false (list_ascii_of_string ("%" ++ term ++ "%"))
                (list_ascii_of_string value)) as Hlo.
  rewrite !chars_app, !List.map_app in Hup, Hlo.
  cbn [List.map list_ascii_of_string] in Hup, Hlo.
  split; [exact Hup|exact Hlo].
Qed.

Lemma truthy_case (s : string) :
  Py.truthy (Py.upper s) = Py.truthy s /\ Py.truthy (Py.lower s) = Py.truthy s.
Proof. now destruct s. Qed.

(** X28: the case of an ASCII search term does not matter: for every
    table, every term of ASCII characters and every column,
    [fetch_campers] returns for the term in capitals and for the term
    in small letters the rows it returns for the term as it is
    written.  [LIKE] folds the letters of ASCII and no others, so the
    same is not said of a term with letters beyond ASCII. *)
Theorem fetch_campers_ignores_the_case_of_the_term (t : table)
    (term : string) (column : option string) :
  Plain.isascii term = true ->
  fetch_campers t (Some (Py.upper term)) column
  = fetch_campers t (Some term) column
  /\ fetch_campers t (Some (Py.lower term)) column
     = fetch_campers t (Some term) column.
Proof.
  intros _. unfold fetch_campers. destruct column as [col|]; [|now split].
  destruct (truthy_case term) as [-> ->].
  destruct (Py.truthy term && Py.truthy col); [|now split].
  destruct (column_of col) as [field|]; [|now split].
  split; f_equal; apply filter_ext; intros r;
    apply (sql_like_term_case term (field (cols r))).
Qed.

End CaseOfTheTerm.

Lemma fetch_campers_ignores_the_case_of_the_term_witness :
  Logic.fetch_campers Store.two_campers (Some "AN") (Some "name")
  = Logic.fetch_campers Store.two_campers (Some "An") (Some "name")
  /\ Logic.fetch_campers Store.two_campers (Some "an") (Some "name")
     = Logic.fetch_campers Store.two_campers (Some "An") (Some "name").
Proof.
  apply (fetch_campers_ignores_the_case_of_the_term Store.two_campers "An"
           (Some "name")).
  reflexivity.
Defined.

(** * When the spell check flags the right words *)

Section RightWords.

Import Gui Tags.

Lemma string_of_list_ascii_empty (l : list ascii) :
  string_of_list_ascii l = "" -> l = [].
Proof. now destruct l. Qed.

(** [split] yields no empty word. *)
Lemma words_from_nonempty (s : string) :
  forall cur pos span,
    match cur with
    | Some (_, w) => w <> []
    | None => True
    end ->
    In span (words_from cur pos s) -> span.2 <> "".
Proof.
  assert (Hemit : forall (p : nat) (w : list ascii) span,
            w <> [] -> In span [(p, string_of_list_ascii (List.rev w))] ->
            span.2 <> "").
  { intros p w span Hw [<-|[]] H. cbn in H.
    apply string_of_list_ascii_empty in H.
    apply Hw. rewrite <- (rev_involutive w), H. reflexivity. }
  induction s as [|c s IH]; intros cur pos span Hcur; cbn [words_from].
  - destruct cur as [[p w]|]; [now apply Hemit|intros []].
  - destruct (Py.char_isspace c).
    + intros Hin. apply in_app_or in Hin as [Hin|Hin].
      * destruct cur as [[p w]|]; [now apply (Hemit p w)|destruct Hin].
      * now apply (IH None (S pos)).
    + destruct cur as [[p w]|]; apply IH; discriminate.
Qed.

Lemma word_spans_nonempty (content : string) (span : nat * string) :
  In span (word_spans content) -> span.2 <> "".
Proof. now apply (words_from_nonempty content None 0). Qed.

Lemma spans_in_from (content : string) (spans : list (nat * string)) :
  forall from span,
    spans_in content from spans -> In span spans -> from <= span.1.
Proof.
  induction spans as [|sp rest IH]; intros from span; [intros _ []|].
  cbn [spans_in]. intros (Hfrom & _ & Hrest) [<-|Hin]; [exact Hfrom|].
  specialize (IH _ _ Hrest Hin). lia.
Qed.

(** No two words of a text begin at the same place. *)
Lemma one_word_at_a_place (content : string) (spans : list (nat * string)) :
  forall from p w1 w2,
    spans_in content from spans ->
    (forall span, In span spans -> span.2 <> "") ->
    In (p, w1) spans -> In (p, w2) spans -> w1 = w2.
Proof.
  induction spans as [|sp rest IH]; intros from p w1 w2; [intros _ _ []|].
  cbn [spans_in]. intros (_ & _ & Hrest) Hwords H1 H2.
  assert (Hlater : forall w, In (p, w) rest -> sp.1 < p).
  { intros w Hin. pose proof (spans_in_from _ _ _ _ Hrest Hin) as Hle.
    assert (Hlen : String.length sp.2 <> 0).
    { specialize (Hwords sp (or_introl eq_refl)). now destruct sp.2. }
    cbn [fst] in Hle. lia. }
  destruct H1 as [E1|H1], H2 as [E2|H2].
  - congruence.
  - apply Hlater in H2. rewrite E1 in H2. cbn in H2. lia.
  - apply Hlater in H1. rewrite E2 in H1. cbn in H1. lia.
  - apply (IH _ p w1 w2 Hrest); [|exact H1|exact H2].
    intros span Hin. apply Hwords. now right.
Qed.

Variable lookup : string -> list Spell.SuggestItem.

(** X29: the words the spell check flags are the right ones when no
    flagged word has its letters earlier in the text: then, for every
    word of the text, the range of the word carries the tag if and only
    if the lookup test fails for the word. *)
Theorem flags_exactly_at_first_occurrences (text : string) :
  (forall span, In span (flagged_spans lookup text) ->
     forall q, q < span.1 -> ~ occurs_at text q span.2) ->
  Stated.flags_exactly lookup text.
Proof.
  intros Hfirst.
  assert (Htagged : Stated.tagged lookup text
                    = List.map (fun span => (span.1, span.1 + String.length span.2))
                        (flagged_spans lookup text)).
  { destruct (check_words_tags lookup text (word_spans text) 0
                {| content := text; misspelled := [] |} eq_refl
                (word_spans_in text))
      as (_ & new & Hnew & Hall & _).
    unfold Stated.tagged, check_spelling, split. cbn [content].
    rewrite Hnew. cbn [misspelled app].
    exact (tags_at_the_words _ _ _ Hall Hfirst). }
  intros pos word Hin. rewrite Htagged. split.
  - intros Htag. apply in_map_iff in Htag as ([p w] & Heq & Hspan).
    cbn [fst snd] in Heq. injection Heq as -> _.
    apply filter_In in Hspan as [Hspan Hflag]. cbn [snd] in Hflag.
    now rewrite (one_word_at_a_place text (word_spans text) 0 pos word w
                   (word_spans_in text) (word_spans_nonempty text) Hin Hspan).
  - intros Hflag. apply in_map_iff. exists (pos, word).
    split; [reflexivity|]. apply filter_In. now split.
Qed.

End RightWords.

Lemma flags_exactly_at_first_occurrences_witness :
  Stated.flags_exactly Gui.sample_lookup "ther is the camper".
Proof.
  apply flags_exactly_at_first_occurrences.
  intros span Hin q Hq. vm_compute in Hin.
  destruct Hin as [<-|[<-|[]]]; cbn [fst snd] in *.
  - lia.
  - intros (before & after & Htext & Hlen).
    do 5 (destruct before as [|? before]; [cbn in Hlen; try lia; discriminate Htext|]).
    cbn in Hlen. lia.
Defined.

(** * The order of the campers *)

Section OrderOfTheCampers.

Import Logic Store.

Variable float_of_str : string -> option Q.

Lemma increasing_from (l : list Z) (from from' : Z) :
  (from <= from')%Z -> increasing from' l -> increasing from l.
Proof. destruct l as [|i l]; [auto|]. cbn. intros Hle [H1 H2]. split; [lia|auto]. Qed.

Lemma increasing_last (l : list Z) :
  forall from n,
    increasing from l -> (from < n)%Z -> (forall i, In i l -> (i < n)%Z) ->
    increasing from (l ++ [n]).
Proof.
  induction l as [|i l IH]; intros from n; cbn.
  - auto.
  - intros [H1 H2] _ Hall. split; [exact H1|].
    apply IH; [exact H2|apply Hall; now left|]. intros j Hj. apply Hall. now right.
Qed.

Lemma increasing_filter (p : row -> bool) (rs : list row) :
  forall from,
    increasing from (List.map id rs) ->
    increasing from (List.map id (List.filter p rs)).
Proof.
  induction rs as [|r rs IH]; intros from; cbn; [auto|].
  intros [H1 H2]. destruct (p r); cbn.
  - split; [exact H1|]. now apply IH.
  - apply (increasing_from _ _ (id r)); [lia|]. now apply IH.
Qed.

Lemma sql_insert_or_ignore_order (t : table) (c : columns) :
  in_id_order t -> in_id_order (sql_insert_or_ignore t c).
Proof.
  unfold in_id_order, ids, sql_insert_or_ignore. intros Ht.
  destruct (number_taken _ _ _); cbn [rows]; [exact Ht|].
  destruct (next_rowid_above t) as (Hpos & _ & Habove).
  rewrite List.map_app. apply increasing_last; [exact Ht|exact Hpos|].
  intros i Hi. apply in_map_iff in Hi as (r & <- & Hr). now apply Habove.
Qed.

Lemma sql_update_order (t t' : table) (i : Z) (c : columns) :
  in_id_order t -> sql_update t i c = Ok t' -> in_id_order t'.
Proof.
  unfold in_id_order, ids, sql_update. intros Ht.
  destruct (existsb _ (rows t)); [|intros H; now injection H as <-].
  destruct (number_taken _ _ _); [discriminate|].
  intros H. injection H as <-. cbn [rows]. now rewrite overwrite_ids.
Qed.

Lemma save_all_campers_order (items : list item) :
  forall t t',
    in_id_order t -> Logic.save_all_campers float_of_str t items = Ok t' ->
    in_id_order t'.
Proof.
  induction items as [|it rest IH]; intros t t' Ht; cbn [Logic.save_all_campers].
  - intros H. now injection H as <-.
  - unfold Logic.save_item.
    destruct (truthy_id it) as [i|];
      destruct (Logic.bound float_of_str it) as [c|e]; cbn [bind];
      try discriminate.
    + destruct (sql_update t i c) as [t1|e] eqn:E; cbn [bind]; [|discriminate].
      apply IH. exact (sql_update_order _ _ _ _ Ht E).
    + apply IH. now apply sql_insert_or_ignore_order.
Qed.

(** X30: the campers are kept, and listed, in the order of their ids.
    When the rows of the table stand in the order of their ids, they
    still do after every operation of the store, and [fetch_campers]
    returns its rows in this order, whatever the filter: the oldest
    camper first, no camper twice. *)
Theorem campers_stay_in_id_order (t : table) :
  in_id_order t ->
  (forall user t', add_camper t user = Ok t' -> in_id_order t')
  /\ (forall camper_id user t',
        update_camper t camper_id user = Ok t' -> in_id_order t')
  /\ (forall camper_id, in_id_order (delete_camper t camper_id))
  /\ (forall n, in_id_order (delete_camper_by_number t n))
  /\ (forall items, in_id_order (Logic.ReconcileAll float_of_str t items))
  /\ (forall search_term column shown,
        fetch_campers t search_term column = Some shown ->
        increasing 0 (List.map id shown)).
Proof.
  intros Ht. split; [|split; [|split; [|split; [|split]]]].
  - intros user t'. unfold add_camper, sql_insert.
    pose proof (sql_insert_or_ignore_order t (columns_of_user user) Ht) as H.
    unfold sql_insert_or_ignore in H.
    destruct (number_taken _ _ _); [discriminate|].
    intros E. now injection E as <-.
  - intros i user t'. apply sql_update_order, Ht.
  - intros i. apply increasing_filter, Ht.
  - intros n. apply increasing_filter, Ht.
  - intros items. unfold Logic.ReconcileAll.
    destruct (Logic.save_all_campers float_of_str t items) as [t'|e] eqn:E;
      cbn [committed]; [|exact Ht].
    exact (save_all_campers_order items t t' Ht E).
  - intros search_term column shown. unfold fetch_campers.
    destruct search_term as [term|]; [|intros H; now injection H as <-].
    destruct column as [col|]; [|intros H; now injection H as <-].
    destruct (Py.truthy term && Py.truthy col); [|intros H; now injection H as <-].
    destruct (column_of col); [|discriminate].
    intros H. injection H as <-. apply increasing_filter, Ht.
Qed.

End OrderOfTheCampers.

Lemma campers_stay_in_id_order_witness :
  Store.in_id_order Logic.ann_table
  /\ Store.in_id_order
       (Logic.ReconcileAll Logic.no_float Logic.init_db
          [Logic.grid_item None "Bob" "Ray" "555-9999" 3;
           Logic.grid_item None "Ann" "Lee" "555-0000" 5]).
Proof.
  assert (H0 : Store.in_id_order Logic.init_db) by exact I.
  destruct (campers_stay_in_id_order Logic.no_float Logic.init_db H0)
    as (Hadd & _ & _ & _ & Hbatch & _).
  split; [|apply Hbatch].
  apply (Hadd Logic.ann). reflexivity.
Defined.
